(** * Enhanced Memory platform: the search tab and the concept-map tab

    A shallow embedding of the two React components that carry logic,
    [SearchTab.tsx] (functions [performSearch] and [getContext]) and
    [ConceptMapTab.tsx] (function [calculateLayout] and the edge renderer),
    together with the data model of [types/lecture.ts].

    Modelling conventions.
    - A JavaScript string is a [string]: a sequence of code units below 256.
      On these, [toLowerCase], [trim], [indexOf], [includes], [split] and
      [substring] are written out below as ECMAScript defines them.
    - A JavaScript number that the code only uses as an index is a [Z]; a
      relevance score is a quotient of two small naturals and is kept as an
      exact rational [Q] (rounding to a double neither merges nor reorders
      such quotients).
    - [Array.prototype.sort] is the stable sort of ECMAScript 2019; its
      comparator returns the sign of the number the JavaScript one returns.
    - [String.prototype.localeCompare] depends on locale data, so it is a
      parameter [localeCompare] of everything that sorts by time.
    - React state is passed explicitly.  The function given to [setTimeout]
      is a first-class callback [State -> State] that closes over the state
      of the render in which [performSearch] was called. *)

From stdpp Require Import gmap strings.
From Stdlib Require Import List String Ascii Bool Arith ZArith QArith Lia
  Permutation Sorted Qround.
Import ListNotations.

Local Close Scope Q_scope.
Local Open Scope string_scope.
Local Open Scope list_scope.
Local Open Scope nat_scope.

(** ** JavaScript built-ins used by the components *)

Module Js.

(** [c.toLowerCase()] on one code unit: A-Z and the Latin-1 capitals
    (U+00C0..U+00DE without the multiplication sign U+00D7). *)
Definition lowerChar (c : ascii) : ascii :=
  let n := nat_of_ascii c in
  if ((65 <=? n) && (n <=? 90))
     || ((192 <=? n) && (n <=? 222) && negb (n =? 215))
  then ascii_of_nat (n + 32)
  else c.

Fixpoint toLowerCase (s : string) : string :=
  match s with
  | EmptyString => EmptyString
  | String c s' => String (lowerChar c) (toLowerCase s')
  end.

(** White space and line terminators below 256: TAB, LF, VT, FF, CR, SP
    and NBSP. *)
Definition isWhiteSpace (c : ascii) : bool :=
  let n := nat_of_ascii c in
  (n =? 9) || (n =? 10) || (n =? 11) || (n =? 12) || (n =? 13)
  || (n =? 32) || (n =? 160).

Fixpoint trimStart (s : string) : string :=
  match s with
  | EmptyString => EmptyString
  | String c s' => if isWhiteSpace c then trimStart s' else s
  end.

Fixpoint trimEnd (s : string) : string :=
  match s with
  | EmptyString => EmptyString
  | String c s' =>
      match trimEnd s' with
      | EmptyString => if isWhiteSpace c then EmptyString
                       else String c EmptyString
      | t => String c t
      end
  end.

Definition trim (s : string) : string := trimEnd (trimStart s).

(** Truthiness of a string: [!s] holds exactly for the empty string. *)
Definition falsy (s : string) : bool :=
  match s with EmptyString => true | String _ _ => false end.

(** [s.indexOf(pat)]: the least position at which [pat] starts, or -1. *)
Fixpoint indexOfFrom (i : Z) (pat s : string) : Z :=
  if String.prefix pat s then i
  else match s with
       | EmptyString => (-1)%Z
       | String _ s' => indexOfFrom (i + 1)%Z pat s'
       end.

Definition indexOf (s pat : string) : Z := indexOfFrom 0%Z pat s.

Definition includes (s pat : string) : bool :=
  negb (indexOf s pat =? -1)%Z.

(** [s.split(sep)] for a separator of one code unit. *)
Fixpoint split (sep : ascii) (s : string) : list string :=
  match s with
  | EmptyString => [EmptyString]
  | String c s' =>
      if Ascii.eqb c sep then EmptyString :: split sep s'
      else match split sep s' with
           | [] => [String c EmptyString]
           | w :: ws => String c w :: ws
           end
  end.

(** [s.substring(a, b)]: both ends are clamped to [0, s.length] and
    swapped when [a > b]. *)
Definition substring (s : string) (a b : Z) : string :=
  let len := Z.of_nat (String.length s) in
  let a' := Z.min (Z.max a 0) len in
  let b' := Z.min (Z.max b 0) len in
  let lo := Z.min a' b' in
  let hi := Z.max a' b' in
  String.substring (Z.to_nat lo) (Z.to_nat (hi - lo)) s.

(** [l.slice(0, n)] on arrays. *)
Definition slice0 {A : Type} (n : nat) (l : list A) : list A := firstn n l.

(** [l.includes(x)] on an array of strings. *)
Definition arrayIncludes (l : list string) (x : string) : bool :=
  existsb (String.eqb x) l.

(** [l.find(p)]: the first element that satisfies [p]. *)
Definition find {A : Type} (p : A -> bool) (l : list A) : option A :=
  List.find p l.

(** [l.sort(cmp)]: stable; [x] is placed before the first [y] that the
    comparator does not put in front of it. *)
Fixpoint insert {A : Type} (cmp : A -> A -> comparison) (x : A)
    (l : list A) : list A :=
  match l with
  | [] => [x]
  | y :: l' =>
      match cmp x y with
      | Gt => y :: insert cmp x l'
      | _ => x :: l
      end
  end.

Definition sort {A : Type} (cmp : A -> A -> comparison) (l : list A)
    : list A :=
  fold_right (insert cmp) [] l.

End Js.

(** ** Data model ([types/lecture.ts]) *)

Module Lecture.

Record TextSegment := {
  start : string;
  end_ : string;
  text : string
}.

Record Transcription := {
  full_text : string;
  segments : list TextSegment
}.

Record SearchResult := {
  segment : TextSegment;
  score : Q;
  context : string
}.

Record ConceptNode := {
  node_id : string;
  node_label : string;
  node_type : string;
  node_size : Q
}.

Record ConceptEdge := {
  edge_from : string;
  edge_to : string;
  edge_label : string;
  edge_strength : Q
}.

Record ConceptMap := {
  nodes : list ConceptNode;
  edges : list ConceptEdge
}.

End Lecture.
Import Lecture.

(** ** [SearchTab.tsx] *)

Module SearchTab.

Inductive SortBy := relevance | time.

Record State := {
  query : string;
  results : list SearchResult;
  isSearching : bool;
  sortBy : SortBy;
  searchHistory : list string
}.

Definition initialState : State :=
  {| query := ""; results := []; isSearching := false;
     sortBy := relevance; searchHistory := [] |}.

Definition setResults (r : list SearchResult) (st : State) : State :=
  {| query := query st; results := r; isSearching := isSearching st;
     sortBy := sortBy st; searchHistory := searchHistory st |}.

Definition setIsSearching (b : bool) (st : State) : State :=
  {| query := query st; results := results st; isSearching := b;
     sortBy := sortBy st; searchHistory := searchHistory st |}.

Definition setSortBy (s : SortBy) (st : State) : State :=
  {| query := query st; results := results st;
     isSearching := isSearching st;
     sortBy := s; searchHistory := searchHistory st |}.

(** [setSearchHistory(prev => f(prev))], the functional update. *)
Definition setSearchHistory (f : list string -> list string) (st : State)
    : State :=
  {| query := query st; results := results st;
     isSearching := isSearching st;
     sortBy := sortBy st; searchHistory := f (searchHistory st) |}.

Definition getContext (text query : string) : string :=
  let queryIndex := Js.indexOf (Js.toLowerCase text) (Js.toLowerCase query) in
  if (queryIndex =? -1)%Z then (Js.substring text 0 100 ++ "...")%string
  else
    let start := Z.max 0 (queryIndex - 50) in
    let end_ := Z.min (Z.of_nat (String.length text))
                      (queryIndex + Z.of_nat (String.length query) + 50) in
    let context := Js.substring text start end_ in
    let context := if (start >? 0)%Z then ("..." ++ context)%string
                   else context in
    let context := if (end_ <? Z.of_nat (String.length text))%Z
                   then (context ++ "...")%string else context in
    context.

Definition searchTerms (searchQuery : string) : list string :=
  Js.split " "%char (Js.toLowerCase searchQuery).

(** The inner [searchTerms.forEach]: one point for a term found in the
    segment, and two more, at that term, when the whole lowercased query
    is found in the segment. *)
Definition relevanceScore (searchQuery : string) (segment : TextSegment)
    : nat :=
  let segmentText := Js.toLowerCase (text segment) in
  fold_left
    (fun relevanceScore term =>
       if Js.includes segmentText term then
         let relevanceScore := relevanceScore + 1 in
         if Js.includes segmentText (Js.toLowerCase searchQuery)
         then relevanceScore + 2
         else relevanceScore
       else relevanceScore)
    (searchTerms searchQuery) 0.

(** The outer [transcription.segments.forEach], which pushes one result
    for each segment of positive relevance, in transcript order. *)
Definition searchResults (transcription : Transcription)
    (searchQuery : string) : list SearchResult :=
  fold_left
    (fun searchResults segment =>
       let relevanceScore := relevanceScore searchQuery segment in
       if 0 <? relevanceScore then
         searchResults ++
           [ {| segment := segment;
                score := (inject_Z (Z.of_nat relevanceScore)
                          / inject_Z (Z.of_nat
                              (List.length (searchTerms searchQuery))))%Q;
                context := getContext (text segment) searchQuery |} ]
       else searchResults)
    (segments transcription) [].

Definition compareResults
    (localeCompare : string -> string -> comparison) (sortBy : SortBy)
    (a b : SearchResult) : comparison :=
  match sortBy with
  | relevance => (score b ?= score a)%Q
  | time => localeCompare (start (segment a)) (start (segment b))
  end.

Definition sortedResults
    (localeCompare : string -> string -> comparison) (sortBy : SortBy)
    (transcription : Transcription) (searchQuery : string)
    : list SearchResult :=
  Js.sort (compareResults localeCompare sortBy)
          (searchResults transcription searchQuery).

(** The function handed to [setTimeout].  [render] is the state of the
    render whose [performSearch] created it: [sortBy] and the
    [searchHistory] that is tested come from there, while the setters act
    on the state current when the timer fires. *)
Definition searchCallback
    (localeCompare : string -> string -> comparison)
    (transcription : Transcription) (render : State)
    (searchQuery : string) (current : State) : State :=
  let sorted :=
    sortedResults localeCompare (sortBy render) transcription searchQuery in
  let current := setResults (Js.slice0 10 sorted) current in
  let current := setIsSearching false current in
  if negb (Js.arrayIncludes (searchHistory render) searchQuery)
  then setSearchHistory
         (fun prev => searchQuery :: Js.slice0 4 prev) current
  else current.

(** [performSearch(searchQuery)] called in the render whose state is
    [render]: the state after the call, and the callback it scheduled. *)
Definition performSearch
    (localeCompare : string -> string -> comparison)
    (transcription : Transcription) (render : State)
    (searchQuery : string) : State * option (State -> State) :=
  if Js.falsy (Js.trim searchQuery) then (setResults [] render, None)
  else (setIsSearching true render,
        Some (searchCallback localeCompare transcription render
                             searchQuery)).

(** A search left to finish: the call, then its timer, with nothing in
    between. *)
Definition search
    (localeCompare : string -> string -> comparison)
    (transcription : Transcription) (st : State) (searchQuery : string)
    : State :=
  match performSearch localeCompare transcription st searchQuery with
  | (st', Some callback) => callback st'
  | (st', None) => st'
  end.

(** The event loop around the component: calls of [performSearch] and
    expiries of the oldest pending timer (all timers wait 800 ms, so they
    fire in the order they were set). *)
Inductive Event :=
| PerformSearch (searchQuery : string)
| TimerFires.

Record World := {
  state : State;
  timers : list (State -> State)
}.

Definition step
    (localeCompare : string -> string -> comparison)
    (transcription : Transcription) (w : World) (e : Event) : World :=
  match e with
  | PerformSearch searchQuery =>
      match performSearch localeCompare transcription (state w)
                          searchQuery with
      | (st', Some callback) =>
          {| state := st'; timers := timers w ++ [callback] |}
      | (st', None) => {| state := st'; timers := timers w |}
      end
  | TimerFires =>
      match timers w with
      | [] => w
      | callback :: rest => {| state := callback (state w); timers := rest |}
      end
  end.

Definition run
    (localeCompare : string -> string -> comparison)
    (transcription : Transcription) (w : World) (es : list Event) : World :=
  fold_left (step localeCompare transcription) es w.

(** Searches made one after the other, each left to finish before the
    next one starts. *)
Definition searches
    (localeCompare : string -> string -> comparison)
    (transcription : Transcription) (st : State) (qs : list string)
    : State :=
  fold_left (search localeCompare transcription) qs st.

Definition initialWorld : World :=
  {| state := initialState; timers := [] |}.

End SearchTab.
Import SearchTab.

Definition seg1 : TextSegment :=
  {| start := "00:00:00"; end_ := "00:00:05";
     text := "machine learning is a subset of artificial intelligence" |}.

Definition transcript1 : Transcription :=
  {| full_text := text seg1; segments := [seg1] |}.

(** ** [ConceptMapTab.tsx] *)

Module ConceptMapTab.

(** A position [{x, y}] of the circular layout.  The coordinates are
    floating-point values of [cos] and [sin]; the embedding keeps the
    numbers they are computed from: the centre (400, 300), or the point
    at angle [index / count * 2 * PI] of the circle of [radius] around
    it. *)
Inductive Position :=
| Centre
| OnCircle (radius : Z) (index count : nat).

(** [group.forEach((node, index) => nodePositions.set(node.id, ...))] *)
Definition placeOnCircle (radius : Z) (group : list ConceptNode)
    (nodePositions : gmap string Position) : gmap string Position :=
  fold_left
    (fun nodePositions '(index, node) =>
       <[node_id node := OnCircle radius index (List.length group)]>
         nodePositions)
    (combine (seq 0 (List.length group)) group)
    nodePositions.

Definition calculateLayout (conceptMap : ConceptMap)
    : gmap string Position :=
  let radius := 200%Z in
  let nodePositions : gmap string Position := ∅ in
  let rootNode :=
    Js.find (fun node => String.eqb (node_type node) "root")
            (nodes conceptMap) in
  let nodePositions :=
    match rootNode with
    | Some rootNode => <[node_id rootNode := Centre]> nodePositions
    | None => nodePositions
    end in
  let mainNodes :=
    List.filter (fun node => String.eqb (node_type node) "main")
                (nodes conceptMap) in
  let nodePositions := placeOnCircle radius mainNodes nodePositions in
  let otherNodes :=
    List.filter
      (fun node => negb (Js.arrayIncludes ["root"; "main"] (node_type node)))
      (nodes conceptMap) in
  placeOnCircle (radius + 100)%Z otherNodes nodePositions.

(** What the renderer draws for one edge: the line between the two
    positions, whether it is highlighted, and the label when labels are
    shown and the edge has one. *)
Record EdgeElement := {
  fromPos : Position;
  toPos : Position;
  isHighlighted : bool;
  shownLabel : option string
}.

(** The body of [conceptMap.edges.map((edge, index) => ...)]; [None] is
    the [return null] of the source. *)
Definition renderEdge (conceptMap : ConceptMap)
    (nodePositions : gmap string Position)
    (highlightedNodes : gset string) (showLabels : bool)
    (edge : ConceptEdge) : option EdgeElement :=
  let fromNode :=
    Js.find (fun n => String.eqb (node_id n) (edge_from edge))
            (nodes conceptMap) in
  let toNode :=
    Js.find (fun n => String.eqb (node_id n) (edge_to edge))
            (nodes conceptMap) in
  match fromNode, toNode with
  | Some _, Some _ =>
      match nodePositions !! edge_from edge,
            nodePositions !! edge_to edge with
      | Some fromPos, Some toPos =>
          Some {| fromPos := fromPos;
                  toPos := toPos;
                  isHighlighted :=
                    bool_decide (edge_from edge ∈ highlightedNodes)
                    || bool_decide (edge_to edge ∈ highlightedNodes);
                  shownLabel :=
                    if showLabels && negb (Js.falsy (edge_label edge))
                    then Some (edge_label edge) else None |}
      | _, _ => None
      end
  | _, _ => None
  end.

Definition renderEdges (conceptMap : ConceptMap)
    (highlightedNodes : gset string) (showLabels : bool)
    : list (option EdgeElement) :=
  map (renderEdge conceptMap (calculateLayout conceptMap)
                  highlightedNodes showLabels)
      (edges conceptMap).

End ConceptMapTab.
Import ConceptMapTab.

(** ** Wording of the specification, kept apart from the code *)

(** Modelled from the spec: the error taxonomy of its section 7.  No source
    file declares, throws or catches any of these errors, and there is no
    index-building step in the code. *)
Inductive PipelineError :=
| EmptyTranscriptError
| InsufficientContentError
| TimeoutError
| GroundingViolationError.

(** A search seen as a call that may raise: [performSearch] and its
    callback contain no [throw], and the built-ins they call do not raise
    on strings and arrays, so the outcome is always the final state. *)
Definition searchOutcome (localeCompare : string -> string -> comparison)
    (transcription : Transcription) (st : State) (searchQuery : string)
    : PipelineError + State :=
  inr (search localeCompare transcription st searchQuery).

(** The terms of the query that occur in the segment. *)
Definition presentTerms (searchQuery : string) (segment : TextSegment)
    : list string :=
  List.filter (Js.includes (Js.toLowerCase (text segment)))
              (searchTerms searchQuery).

(** The score as section 4.1 of the specification words it: one point for
    each query term present, one bonus of 2 for the whole query, divided by
    the number of terms. *)
Definition specScore (searchQuery : string) (segment : TextSegment) : Q :=
  (inject_Z (Z.of_nat
     (List.length (presentTerms searchQuery segment)
      + (if Js.includes (Js.toLowerCase (text segment))
                        (Js.toLowerCase searchQuery)
         then 2 else 0)))
   / inject_Z (Z.of_nat (List.length (searchTerms searchQuery))))%Q.

(** The score the code computes: the bonus of 2 is added once for every
    term present. *)
Definition codeScore (searchQuery : string) (segment : TextSegment) : Q :=
  (inject_Z (Z.of_nat
     (List.length (presentTerms searchQuery segment)
      + (if Js.includes (Js.toLowerCase (text segment))
                        (Js.toLowerCase searchQuery)
         then 2 * List.length (presentTerms searchQuery segment) else 0)))
   / inject_Z (Z.of_nat (List.length (searchTerms searchQuery))))%Q.

(** The result that the outer loop pushes for a segment. *)
Definition resultOf (searchQuery : string) (segment : TextSegment)
    : SearchResult :=
  {| segment := segment;
     score := (inject_Z (Z.of_nat (relevanceScore searchQuery segment))
               / inject_Z (Z.of_nat
                   (List.length (searchTerms searchQuery))))%Q;
     context := getContext (text segment) searchQuery |}.

(** The segments the outer loop keeps. *)
Definition matches (searchQuery : string) (segment : TextSegment) : bool :=
  0 <? relevanceScore searchQuery segment.

(** [pat] occurs in [s] at position [k]. *)
Definition occursAt (pat s : string) (k : nat) : Prop :=
  exists pre post : string,
    s = (pre ++ pat ++ post)%string /\ String.length pre = k.

(** [k] is the first position at which [pat] occurs in [s]. *)
Definition firstOccurrence (pat s : string) (k : nat) : Prop :=
  occursAt pat s k /\ forall j, occursAt pat s j -> k <= j.

(** Results that tie at score [s]. *)
Definition tie (s : Q) (r : SearchResult) : bool := Qeq_bool (score r) s.

(** Ascending start time, for segments and for results. *)
Definition startsAscend (localeCompare : string -> string -> comparison)
    (a b : TextSegment) : Prop :=
  localeCompare (start a) (start b) <> Gt.

Definition resultStartsAscend
    (localeCompare : string -> string -> comparison)
    (a b : SearchResult) : Prop :=
  startsAscend localeCompare (segment a) (segment b).

(** Descending score. *)
Definition scoreDescends (a b : SearchResult) : Prop :=
  (score b <= score a)%Q.

(** The order the specification asks of the results: a higher score comes
    first, and of two results with equal scores the one whose segment
    starts first. *)
Definition rankedBefore (localeCompare : string -> string -> comparison)
    (a b : SearchResult) : Prop :=
  (score b < score a)%Q
  \/ ((score a == score b)%Q
      /\ startsAscend localeCompare (segment a) (segment b)).

(** ** Sample data *)

Definition segAI (start_ : string) (text_ : string) : TextSegment :=
  {| start := start_; end_ := start_; text := text_ |}.

(** Two segments of equal relevance, in chronological order. *)
Definition transcriptTies : Transcription :=
  {| full_text := "ai ai";
     segments := [segAI "00:00:00" "ai"; segAI "00:00:05" "ai"] |}.

(** Eleven matching segments in chronological order; the first matches one
    term only. *)
Definition transcriptEleven : Transcription :=
  {| full_text := "";
     segments :=
       segAI "00:00:00" "deep" ::
       map (fun s => segAI s "deep learning")
           ["00:00:01"; "00:00:02"; "00:00:03"; "00:00:04"; "00:00:05";
            "00:00:06"; "00:00:07"; "00:00:08"; "00:00:09"; "00:00:10"] |}.

Definition transcriptEmpty : Transcription :=
  {| full_text := ""; segments := [] |}.

Definition timeState : State := setSortBy time initialState.

(** A concept map with one sound edge and one edge to a missing node. *)
Definition mapDangling : ConceptMap :=
  {| nodes :=
       [ {| node_id := "ai"; node_label := "AI"; node_type := "root";
            node_size := 40%Q |};
         {| node_id := "ml"; node_label := "ML"; node_type := "main";
            node_size := 30%Q |} ];
     edges :=
       [ {| edge_from := "ai"; edge_to := "ml"; edge_label := "includes";
            edge_strength := 1%Q |};
         {| edge_from := "ai"; edge_to := "ghost"; edge_label := "";
            edge_strength := 1%Q |} ] |}.

(** ** More built-ins *)

Module JsMore.

(** [s.endsWith(suffix)] *)
Definition endsWith (s suffix : string) : bool :=
  let n := String.length s in
  let m := String.length suffix in
  (m <=? n) && String.eqb (String.substring (n - m) m s) suffix.

(** [[...new Set(l)]]: the distinct elements of [l], each at the place of
    its first occurrence. *)
Definition setToArray (l : list string) : list string :=
  fold_left (fun seen x => if Js.arrayIncludes seen x then seen
                           else seen ++ [x]) l [].

(** The pairs [(index, element)] that [forEach], [map] and [reduce] hand
    to their callback. *)
Definition entries {A : Type} (l : list A) : list (nat * A) :=
  combine (seq 0 (List.length l)) l.

End JsMore.

(** ** The other handlers of [SearchTab.tsx] *)

Module SearchTabHandlers.

Definition setQuery (q : string) (st : State) : State :=
  {| query := q; results := results st; isSearching := isSearching st;
     sortBy := sortBy st; searchHistory := searchHistory st |}.

(** [handleSearch(searchQuery)]: [setQuery] and [performSearch] in one
    render; the callback reads only [sortBy] and [searchHistory] of that
    render, which [setQuery] leaves alone. *)
Definition handleSearch (localeCompare : string -> string -> comparison)
    (transcription : Transcription) (render : State) (searchQuery : string)
    : State * option (State -> State) :=
  performSearch localeCompare transcription (setQuery searchQuery render)
                searchQuery.

Definition sortBy_eqb (a b : SortBy) : bool :=
  match a, b with
  | relevance, relevance | time, time => true
  | _, _ => false
  end.

(** The [onChange] of the sort select, [setSortBy(value)], together with
    the effect that depends on [sortBy]: React renders again only when the
    value changes, and the effect of that render calls
    [performSearch(query)] when [query] is not the empty string. *)
Definition changeSortBy (localeCompare : string -> string -> comparison)
    (transcription : Transcription) (st : State) (value : SortBy)
    : State * option (State -> State) :=
  if sortBy_eqb value (sortBy st) then (st, None)
  else
    let render := setSortBy value st in
    if Js.falsy (query render) then (render, None)
    else performSearch localeCompare transcription render (query render).

(** The state once the timer that a handler set, if any, has fired. *)
Definition settle (p : State * option (State -> State)) : State :=
  match p with
  | (st, Some callback) => callback st
  | (st, None) => st
  end.

(** The updater that [toggleSegmentSelection(index)] gives to
    [setSelectedSegments]. *)
Definition toggleSegmentSelection (index : nat) (prev : gset nat)
    : gset nat :=
  if bool_decide (index ∈ prev) then prev ∖ {[index]}
  else prev ∪ {[index]}.

Definition formatTime (timeStr : string) : string :=
  Js.substring timeStr 0 8.

End SearchTabHandlers.

(** ** [TranscriptionTab.tsx] *)

Module TranscriptionTab.

Definition filteredSegments (transcription : Transcription)
    (searchTerm : string) : list TextSegment :=
  List.filter
    (fun segment => Js.includes (Js.toLowerCase (text segment))
                                (Js.toLowerCase searchTerm))
    (segments transcription).

(** [(searchTerm ? filteredSegments : transcription.segments)], the list
    that the segments view maps over. *)
Definition shownSegments (transcription : Transcription)
    (searchTerm : string) : list TextSegment :=
  if Js.falsy searchTerm then segments transcription
  else filteredSegments transcription searchTerm.

(** [transcription.full_text.split(' ').length], shown as the number of
    words, and [split('.').length], shown as the number of sentences. *)
Definition wordCount (transcription : Transcription) : nat :=
  List.length (Js.split " "%char (full_text transcription)).

Definition sentenceCount (transcription : Transcription) : nat :=
  List.length (Js.split "."%char (full_text transcription)).

End TranscriptionTab.

(** ** [QuestionsTab.tsx] *)

Module QuestionsTab.

Record MultipleChoiceQuestion := {
  question : string;
  options : list string;
  correct_answer : Z;
  explanation : string
}.

(** [selectedAnswers] and [showExplanation] are objects keyed by the index
    of the question. *)
Record State := {
  testMode : bool;
  testCompleted : bool;
  selectedAnswers : gmap nat nat;
  showExplanation : gmap nat bool;
  currentQuestionIndex : nat;
  score : nat
}.

Definition initialState : State :=
  {| testMode := false; testCompleted := false; selectedAnswers := ∅;
     showExplanation := ∅; currentQuestionIndex := 0; score := 0 |}.

Definition handleAnswerSelect (questionIndex answerIndex : nat) (st : State)
    : State :=
  if testMode st && testCompleted st then st
  else
    {| testMode := testMode st;
       testCompleted := testCompleted st;
       selectedAnswers := <[questionIndex := answerIndex]> (selectedAnswers st);
       showExplanation :=
         if negb (testMode st)
         then <[questionIndex := true]> (showExplanation st)
         else showExplanation st;
       currentQuestionIndex := currentQuestionIndex st;
       score := score st |}.

Definition startTest (st : State) : State :=
  {| testMode := true; testCompleted := false; selectedAnswers := ∅;
     showExplanation := ∅; currentQuestionIndex := 0; score := 0 |}.

(** [selectedAnswers[index] === question.correct_answer] *)
Definition answeredCorrectly (selectedAnswers : gmap nat nat)
    (index : nat) (question : MultipleChoiceQuestion) : bool :=
  match selectedAnswers !! index with
  | Some answerIndex => (Z.of_nat answerIndex =? correct_answer question)%Z
  | None => false
  end.

Definition completeTest (mcQuestions : list MultipleChoiceQuestion)
    (st : State) : State :=
  let correctAnswers :=
    fold_left
      (fun acc '(index, question) =>
         if answeredCorrectly (selectedAnswers st) index question
         then acc + 1 else acc)
      (JsMore.entries mcQuestions) 0 in
  let allExplanations : gmap nat bool :=
    fold_left (fun acc '(index, _) => <[index := true]> acc)
              (JsMore.entries mcQuestions) ∅ in
  {| testMode := testMode st;
     testCompleted := true;
     selectedAnswers := selectedAnswers st;
     showExplanation := allExplanations;
     currentQuestionIndex := currentQuestionIndex st;
     score := correctAnswers |}.

Definition resetTest (st : State) : State :=
  {| testMode := false; testCompleted := false; selectedAnswers := ∅;
     showExplanation := ∅; currentQuestionIndex := 0; score := 0 |}.

End QuestionsTab.

(** ** The other handlers of [ConceptMapTab.tsx] *)

Module ConceptMapHandlers.

Record State := {
  selectedNode : option string;
  highlightedNodes : gset string;
  showLabels : bool;
  filterType : string
}.

Definition initialState : State :=
  {| selectedNode := None; highlightedNodes := ∅; showLabels := true;
     filterType := "all" |}.

(** The set that [handleNodeClick] builds for a newly selected node. *)
Definition connectedNodes (conceptMap : ConceptMap) (nodeId : string)
    : gset string :=
  fold_left
    (fun connectedNodes edge =>
       let connectedNodes :=
         if String.eqb (edge_from edge) nodeId
         then connectedNodes ∪ {[edge_to edge]} else connectedNodes in
       if String.eqb (edge_to edge) nodeId
       then connectedNodes ∪ {[edge_from edge]} else connectedNodes)
    (edges conceptMap) {[nodeId]}.

Definition handleNodeClick (conceptMap : ConceptMap) (nodeId : string)
    (st : State) : State :=
  if bool_decide (selectedNode st = Some nodeId) then
    {| selectedNode := None; highlightedNodes := ∅;
       showLabels := showLabels st; filterType := filterType st |}
  else
    {| selectedNode := Some nodeId;
       highlightedNodes := connectedNodes conceptMap nodeId;
       showLabels := showLabels st; filterType := filterType st |}.

Definition filteredNodes (conceptMap : ConceptMap) (filterType : string)
    : list ConceptNode :=
  List.filter
    (fun node => String.eqb filterType "all"
                 || String.eqb (node_type node) filterType)
    (nodes conceptMap).

Definition nodeTypes (conceptMap : ConceptMap) : list string :=
  JsMore.setToArray (map node_type (nodes conceptMap)).

(** What is drawn for a node: its position and the two flags that choose
    its stroke. *)
Record NodeElement := {
  pos : Position;
  isSelected : bool;
  nodeIsHighlighted : bool
}.

(** The body of [filteredNodes.map((node) => ...)]; [None] is the
    [return null] for a node without a position. *)
Definition renderNode (nodePositions : gmap string Position) (st : State)
    (node : ConceptNode) : option NodeElement :=
  match nodePositions !! node_id node with
  | None => None
  | Some pos =>
      Some {| pos := pos;
              isSelected :=
                bool_decide (selectedNode st = Some (node_id node));
              nodeIsHighlighted :=
                bool_decide (node_id node ∈ highlightedNodes st) |}
  end.

Definition renderNodes (conceptMap : ConceptMap) (st : State)
    : list (option NodeElement) :=
  map (renderNode (calculateLayout conceptMap) st)
      (filteredNodes conceptMap (filterType st)).

End ConceptMapHandlers.

(** ** [ProcessingPage.tsx] *)

Module ProcessingPage.

(** [steps.length]: the page lists six steps. *)
Definition stepsLength : Z := 6.

Record State := {
  currentStep : Z;
  progress : Z
}.

Definition initialState : State := {| currentStep := 0; progress := 0 |}.

(** One expiry of the 100 ms interval.  The progress is an even integer
    between 0 and 100, and [(newProgress / 100) * steps.length] is computed
    here in exact rationals: on these values the double that JavaScript
    computes has the same floor. *)
Definition tick (st : State) : State :=
  if (100 <=? progress st)%Z then st
  else
    let newProgress := (progress st + 2)%Z in
    let stepIndex :=
      Qfloor ((inject_Z newProgress / 100) * inject_Z stepsLength)%Q in
    {| currentStep := Z.min stepIndex (stepsLength - 1);
       progress := newProgress |}.

Inductive StepStatus := isCompleted | isCurrent | isPending.

(** The three flags computed for the step at [index]. *)
Definition stepStatus (st : State) (index : Z) : StepStatus :=
  if (index <? currentStep st)%Z then isCompleted
  else if (index =? currentStep st)%Z then isCurrent
  else isPending.

End ProcessingPage.

(** ** [HomePage.tsx] *)

Module HomePage.

Record File := {
  name : string;
  type : string
}.

Definition validTypes : list string :=
  ["audio/mp3"; "audio/mpeg"; "audio/wav"; "audio/x-m4a"; "audio/mp4"].

Definition validExtensions : list string := [".mp3"; ".wav"; ".m4a"].

Definition isValidAudioFile (file : File) : bool :=
  Js.arrayIncludes validTypes (type file)
  || existsb (fun ext => JsMore.endsWith (Js.toLowerCase (name file)) ext)
             validExtensions.

(** What [handleDrop] and [handleFileSelect] do with the list of files of
    the event. *)
Inductive Effect :=
| onFileUpload (file : File)
| alert
| nothing.

Definition handleFiles (files : list File) : Effect :=
  match files with
  | [] => nothing
  | file :: _ => if isValidAudioFile file then onFileUpload file else alert
  end.

End HomePage.

(** ** Facts about the built-ins *)

Lemma split_not_nil (sep : ascii) (s : string) : Js.split sep s <> [].
Proof.
  induction s as [|c s IH]; simpl; [discriminate|].
  destruct (Ascii.eqb c sep); [discriminate|].
  destruct (Js.split sep s); discriminate.
Qed.

Lemma searchTerms_length (q : string) : 1 <= List.length (searchTerms q).
Proof.
  unfold searchTerms.
  pose proof (split_not_nil " "%char (Js.toLowerCase q)) as H.
  destruct (Js.split " "%char (Js.toLowerCase q)); [congruence|simpl; lia].
Qed.

Lemma trimStart_white (s : string) :
  Forall (fun c => Js.isWhiteSpace c = true) (list_ascii_of_string s) ->
  Js.trimStart s = EmptyString.
Proof.
  induction s as [|c s IH]; simpl; intros H; [reflexivity|].
  inversion H as [|? ? Hc Hs]; subst. rewrite Hc. auto.
Qed.

Lemma trim_white (s : string) :
  Forall (fun c => Js.isWhiteSpace c = true) (list_ascii_of_string s) ->
  Js.trim s = EmptyString.
Proof.
  intros H. unfold Js.trim. rewrite trimStart_white by assumption.
  reflexivity.
Qed.

(** ** The sort *)

Section SortFacts.
Context {A : Type} (cmp : A -> A -> comparison).

Lemma insert_perm (x : A) (l : list A) :
  Permutation (Js.insert cmp x l) (x :: l).
Proof.
  induction l as [|y l IH]; simpl; [reflexivity|].
  destruct (cmp x y); try reflexivity.
  rewrite IH. apply perm_swap.
Qed.

Lemma sort_perm (l : list A) : Permutation (Js.sort cmp l) l.
Proof.
  induction l as [|x l IH]; simpl; [reflexivity|].
  rewrite insert_perm. now constructor.
Qed.

Lemma sort_length (l : list A) :
  List.length (Js.sort cmp l) = List.length l.
Proof. apply Permutation_length, sort_perm. Qed.

(** Stability: a class of elements that the comparator never orders
    [Gt] among themselves keeps its order. *)
Lemma insert_filter (p : A -> bool) (x : A) (l : list A) :
  (forall y, In y l -> p x = true -> p y = true -> cmp x y <> Gt) ->
  List.filter p (Js.insert cmp x l) = List.filter p (x :: l).
Proof.
  induction l as [|y l IH]; intros Hc; [reflexivity|].
  cbn [Js.insert].
  destruct (cmp x y) eqn:E; try reflexivity.
  cbn [List.filter]. rewrite IH by (intros; apply Hc; simpl; auto).
  cbn [List.filter].
  destruct (p x) eqn:Px, (p y) eqn:Py; try reflexivity.
  exfalso. apply (Hc y); simpl; auto.
Qed.

Lemma sort_filter (p : A -> bool) (l : list A) :
  (forall x y, p x = true -> p y = true -> cmp x y <> Gt) ->
  List.filter p (Js.sort cmp l) = List.filter p l.
Proof.
  intros Hc. induction l as [|x l IH]; [reflexivity|].
  cbn [Js.sort fold_right]. fold (Js.sort cmp l).
  rewrite insert_filter by (intros; now apply Hc).
  cbn [List.filter]. now rewrite IH.
Qed.

(** With a total comparator the output is sorted. *)
Lemma insert_sorted (x : A) (l : list A) :
  (forall a b, cmp a b = Gt -> cmp b a <> Gt) ->
  Sorted (fun a b => cmp a b <> Gt) l ->
  Sorted (fun a b => cmp a b <> Gt) (Js.insert cmp x l).
Proof.
  intros Htot. induction l as [|y l IH]; intros Hs; cbn [Js.insert].
  - repeat constructor.
  - destruct (cmp x y) eqn:E.
    + constructor; [assumption|]. constructor. congruence.
    + constructor; [assumption|]. constructor. congruence.
    + inversion Hs as [|? ? Hs' Hhd]; subst.
      constructor; [auto|].
      destruct l as [|z l]; cbn [Js.insert].
      * constructor. now apply Htot.
      * destruct (cmp x z); constructor;
          solve [now apply Htot | now inversion Hhd].
Qed.

Lemma sort_sorted (l : list A) :
  (forall a b, cmp a b = Gt -> cmp b a <> Gt) ->
  Sorted (fun a b => cmp a b <> Gt) (Js.sort cmp l).
Proof.
  intros Htot. induction l as [|x l IH]; [constructor|].
  cbn [Js.sort fold_right]. now apply insert_sorted.
Qed.

End SortFacts.

Lemma Sorted_firstn {A : Type} (R : A -> A -> Prop) (n : nat) (l : list A) :
  Sorted R l -> Sorted R (firstn n l).
Proof.
  revert l. induction n as [|n IH]; intros l Hs; [constructor|].
  destruct l as [|x l]; [constructor|].
  inversion Hs as [|? ? Hs' Hhd]; subst. cbn [firstn].
  constructor; [auto|].
  destruct l as [|y l]; [rewrite firstn_nil; constructor|].
  destruct n; cbn [firstn]; constructor. now inversion Hhd.
Qed.

Lemma StronglySorted_firstn {A : Type} (R : A -> A -> Prop) (n : nat)
    (l : list A) :
  StronglySorted R l -> StronglySorted R (firstn n l).
Proof.
  revert l. induction n as [|n IH]; intros l Hs; [constructor|].
  destruct l as [|x l]; [constructor|].
  inversion Hs as [|? ? Hs' Hall]; subst. cbn [firstn].
  constructor; [auto|].
  rewrite Forall_forall in *. intros y Hy. apply Hall.
  rewrite <- (firstn_skipn n l). apply in_or_app. now left.
Qed.

Lemma StronglySorted_filter {A : Type} (R : A -> A -> Prop) (p : A -> bool)
    (l : list A) :
  StronglySorted R l -> StronglySorted R (List.filter p l).
Proof.
  induction 1 as [|x l Hs IH Hall]; cbn [List.filter]; [constructor|].
  destruct (p x); [|assumption].
  constructor; [assumption|].
  rewrite Forall_forall in *. intros y Hy.
  apply Hall. now apply filter_In in Hy.
Qed.

Lemma StronglySorted_map {A B : Type} (R : B -> B -> Prop) (f : A -> B)
    (l : list A) :
  StronglySorted R (map f l) <-> StronglySorted (fun a b => R (f a) (f b)) l.
Proof.
  induction l as [|x l IH]; cbn [map].
  - split; constructor.
  - split; intros H; inversion H as [|? ? Hs Hall]; subst;
      (constructor; [now apply IH|]).
    + rewrite Forall_forall in *. intros y Hy. apply Hall. now apply in_map.
    + rewrite Forall_forall in *. intros y Hy.
      apply in_map_iff in Hy as (z & <- & Hz). now apply Hall.
Qed.

Lemma filter_firstn_prefix {A : Type} (p : A -> bool) (n : nat) (l : list A) :
  exists rest, List.filter p l = List.filter p (firstn n l) ++ rest.
Proof.
  exists (List.filter p (skipn n l)).
  rewrite <- filter_app. now rewrite firstn_skipn.
Qed.

(** ** The search: scoring and the stored results *)

Lemma fold_relevance (f : string -> bool) (b : bool) (terms : list string)
    (a : nat) :
  fold_left
    (fun relevanceScore term =>
       if f term then
         let relevanceScore := relevanceScore + 1 in
         if b then relevanceScore + 2 else relevanceScore
       else relevanceScore)
    terms a
  = a + List.length (List.filter f terms)
    + (if b then 2 * List.length (List.filter f terms) else 0).
Proof.
  revert a. induction terms as [|t terms IH]; intros a; cbn [fold_left].
  - destruct b; simpl; lia.
  - rewrite IH. cbn [List.filter].
    destruct (f t), b; cbn [List.length]; lia.
Qed.

Lemma relevanceScore_count (q : string) (seg : TextSegment) :
  relevanceScore q seg
  = List.length (presentTerms q seg)
    + (if Js.includes (Js.toLowerCase (text seg)) (Js.toLowerCase q)
       then 2 * List.length (presentTerms q seg) else 0).
Proof.
  unfold relevanceScore, presentTerms. now rewrite fold_relevance.
Qed.

Lemma relevanceScore_le (q : string) (seg : TextSegment) :
  relevanceScore q seg <= 3 * List.length (searchTerms q).
Proof.
  rewrite relevanceScore_count.
  pose proof (filter_length_le
                (Js.includes (Js.toLowerCase (text seg))) (searchTerms q)).
  unfold presentTerms. destruct (Js.includes _ (Js.toLowerCase q)); lia.
Qed.

Lemma fold_searchResults (q : string) (segs : list TextSegment)
    (acc : list SearchResult) :
  fold_left
    (fun searchResults segment =>
       let relevanceScore := relevanceScore q segment in
       if 0 <? relevanceScore then
         searchResults ++
           [ {| segment := segment;
                score := (inject_Z (Z.of_nat relevanceScore)
                          / inject_Z (Z.of_nat
                              (List.length (searchTerms q))))%Q;
                context := getContext (text segment) q |} ]
       else searchResults)
    segs acc
  = acc ++ map (resultOf q) (List.filter (matches q) segs).
Proof.
  revert acc. induction segs as [|s segs IH]; intros acc; cbn [fold_left].
  - cbn. now rewrite app_nil_r.
  - rewrite IH. cbn [List.filter]. unfold matches at 2.
    destruct (0 <? relevanceScore q s); [|reflexivity].
    cbn [map]. now rewrite <- app_assoc.
Qed.

Lemma searchResults_filter (T : Transcription) (q : string) :
  searchResults T q = map (resultOf q) (List.filter (matches q) (segments T)).
Proof. unfold searchResults. now rewrite fold_searchResults. Qed.

Lemma results_search (cmp : string -> string -> comparison)
    (T : Transcription) (st : State) (q : string) :
  results (search cmp T st q)
  = if Js.falsy (Js.trim q) then []
    else firstn 10 (sortedResults cmp (sortBy st) T q).
Proof.
  unfold search, performSearch.
  destruct (Js.falsy (Js.trim q)); [reflexivity|].
  unfold searchCallback.
  destruct (negb (Js.arrayIncludes (searchHistory st) q)); reflexivity.
Qed.

Lemma In_firstn {A : Type} (n : nat) (l : list A) (x : A) :
  In x (firstn n l) -> In x l.
Proof.
  intros H. rewrite <- (firstn_skipn n l). apply in_or_app. now left.
Qed.

Lemma results_from_segments (cmp : string -> string -> comparison)
    (T : Transcription) (st : State) (q : string) (r : SearchResult) :
  In r (results (search cmp T st q)) ->
  exists seg, In seg (segments T) /\ matches q seg = true
              /\ r = resultOf q seg.
Proof.
  rewrite results_search.
  destruct (Js.falsy (Js.trim q)); [intros []|].
  intros H. apply In_firstn in H.
  unfold sortedResults in H.
  apply (Permutation_in _ (sort_perm _ _)) in H.
  rewrite searchResults_filter in H.
  apply in_map_iff in H as (seg & <- & Hseg).
  apply filter_In in Hseg as [Hin Hm]. now exists seg.
Qed.

Lemma quotient_bounds (r n : nat) :
  0 < r -> r <= 3 * n ->
  (0 < inject_Z (Z.of_nat r) / inject_Z (Z.of_nat n)
   /\ inject_Z (Z.of_nat r) / inject_Z (Z.of_nat n) <= 3)%Q.
Proof.
  intros Hr Hn.
  assert (Hpos : (0 < inject_Z (Z.of_nat n))%Q).
  { change 0%Q with (inject_Z 0). rewrite <- Zlt_Qlt. lia. }
  split.
  - apply Qlt_shift_div_l; [assumption|].
    rewrite Qmult_0_l. change 0%Q with (inject_Z 0).
    rewrite <- Zlt_Qlt. lia.
  - apply Qle_shift_div_r; [assumption|].
    change 3%Q with (inject_Z 3). rewrite <- inject_Z_mult, <- Zle_Qle. lia.
Qed.

(** C1, as the code has it.  For the single segment "machine learning is a
    subset of artificial intelligence" and the query "machine learning",
    the search stores exactly one result; its context is the whole segment
    text, with no ellipsis; its score is 3 (each of the two terms earns its
    point and the bonus of 2, and 6 is divided by 2), whatever the sort
    mode and the history are. *)
Theorem C1_single_segment_result
    (localeCompare : string -> string -> comparison) (st : State) :
  exists r,
    results (search localeCompare transcript1 st "machine learning") = [r]
    /\ segment r = seg1
    /\ (score r == 3)%Q
    /\ context r = text seg1.
Proof.
  exists (resultOf "machine learning" seg1).
  rewrite results_search. repeat split; vm_compute; reflexivity.
Qed.

(** C1 as worded fails: the one result does not have score 1. *)
Lemma C1_score_is_not_one :
  ~ exists r,
      results (search String.compare transcript1 initialState
                      "machine learning") = [r]
      /\ (score r == 1)%Q
      /\ context r = text seg1.
Proof.
  intros (r & Hr & Hs & _).
  vm_compute in Hr. injection Hr as <-.
  vm_compute in Hs. discriminate.
Qed.

(** C2, as the code has it.  For every segment and every query, the
    relevance that the search computes is the number of query terms found
    in the segment, plus 2 for each of those terms when the lowercased
    query is a substring of the lowercased segment text; divided by the
    number of query terms, it is the score of every result stored for the
    segment. *)
Theorem C2_score_formula
    (localeCompare : string -> string -> comparison) (T : Transcription)
    (st : State) (q : string) :
  (forall seg,
     relevanceScore q seg
     = List.length (presentTerms q seg)
       + (if Js.includes (Js.toLowerCase (text seg)) (Js.toLowerCase q)
          then 2 * List.length (presentTerms q seg) else 0))
  /\ (forall r,
        In r (results (search localeCompare T st q)) ->
        score r = codeScore q (segment r)).
Proof.
  split; [intros seg; apply relevanceScore_count|].
  intros r H. apply results_from_segments in H as (seg & _ & _ & ->).
  unfold codeScore. cbn [resultOf score segment].
  now rewrite relevanceScore_count.
Qed.

Lemma C2_score_formula_witness :
  let r := resultOf "machine learning" seg1 in
  In r (results (search String.compare transcript1 initialState
                        "machine learning"))
  /\ score r = codeScore "machine learning" (segment r).
Proof.
  intros r.
  assert (H : In r (results (search String.compare transcript1 initialState
                                    "machine learning"))).
  { vm_compute. left. reflexivity. }
  split; [exact H|].
  exact (proj2 (C2_score_formula String.compare transcript1 initialState
                                 "machine learning") r H).
Defined.

(** C2 as worded fails: with a single bonus the two-term query would score
    (2 + 2) / 2 = 2 on the segment, and the code stores 3. *)
Lemma C2_single_bonus_fails :
  ~ forall r,
      In r (results (search String.compare transcript1 initialState
                            "machine learning")) ->
      (score r == specScore "machine learning" (segment r))%Q.
Proof.
  intros H.
  specialize (H (resultOf "machine learning" seg1)).
  assert (Hin : In (resultOf "machine learning" seg1)
                   (results (search String.compare transcript1 initialState
                                    "machine learning"))).
  { vm_compute. left. reflexivity. }
  specialize (H Hin). vm_compute in H. discriminate.
Qed.

(** C3, as the code has it.  Every stored result has a score strictly
    greater than 0 and at most 3. *)
Theorem C3_score_range
    (localeCompare : string -> string -> comparison) (T : Transcription)
    (st : State) (q : string) (r : SearchResult) :
  In r (results (search localeCompare T st q)) ->
  (0 < score r /\ score r <= 3)%Q.
Proof.
  intros H. apply results_from_segments in H as (seg & _ & Hm & ->).
  cbn [resultOf score]. apply quotient_bounds.
  - unfold matches in Hm. now apply Nat.ltb_lt in Hm.
  - apply relevanceScore_le.
Qed.

Lemma C3_score_range_witness :
  let r := resultOf "machine learning" seg1 in
  In r (results (search String.compare transcript1 initialState
                        "machine learning"))
  /\ (0 < score r /\ score r <= 3)%Q.
Proof.
  intros r.
  assert (H : In r (results (search String.compare transcript1 initialState
                                    "machine learning"))).
  { vm_compute. left. reflexivity. }
  split; [exact H|].
  exact (C3_score_range String.compare transcript1 initialState
                        "machine learning" r H).
Defined.

(** C3 as worded fails: a stored score can exceed 1. *)
Lemma C3_score_above_one :
  exists r,
    In r (results (search String.compare transcript1 initialState
                          "machine learning"))
    /\ ~ (score r <= 1)%Q.
Proof.
  exists (resultOf "machine learning" seg1). split.
  - vm_compute. left. reflexivity.
  - vm_compute. intros H. now apply H.
Qed.

(** C6.  A query made of white space only (the empty query included)
    stores an empty result list at once: no timer is set, the history is
    left alone, and the call completes with a state, not an error. *)
Theorem C6_blank_query
    (localeCompare : string -> string -> comparison) (T : Transcription)
    (st : State) (q : string) :
  Forall (fun c => Js.isWhiteSpace c = true) (list_ascii_of_string q) ->
  performSearch localeCompare T st q = (setResults [] st, None)
  /\ results (search localeCompare T st q) = []
  /\ searchHistory (search localeCompare T st q) = searchHistory st
  /\ searchOutcome localeCompare T st q = inr (setResults [] st).
Proof.
  intros Hw. apply trim_white in Hw.
  unfold searchOutcome, search, performSearch. rewrite Hw. cbn.
  repeat split; reflexivity.
Qed.

Lemma C6_blank_query_witness :
  Forall (fun c => Js.isWhiteSpace c = true) (list_ascii_of_string "   ")
  /\ results (search String.compare transcript1 initialState "   ") = [].
Proof.
  assert (H : Forall (fun c => Js.isWhiteSpace c = true)
                     (list_ascii_of_string "   ")).
  { repeat constructor. }
  split; [exact H|].
  exact (proj1 (proj2 (C6_blank_query String.compare transcript1
                                      initialState "   " H))).
Defined.

(** C9, as the code has it.  On a transcript without segments a search
    raises nothing: it completes and stores an empty result list, for every
    query and in both sort modes. *)
Theorem C9_empty_transcript
    (localeCompare : string -> string -> comparison) (T : Transcription)
    (st : State) (q : string) :
  segments T = [] ->
  exists st', searchOutcome localeCompare T st q = inr st'
              /\ results st' = [].
Proof.
  intros HT. exists (search localeCompare T st q). split; [reflexivity|].
  rewrite results_search. destruct (Js.falsy (Js.trim q)); [reflexivity|].
  unfold sortedResults. rewrite searchResults_filter, HT. reflexivity.
Qed.

Lemma C9_empty_transcript_witness :
  segments transcriptEmpty = []
  /\ exists st', searchOutcome String.compare transcriptEmpty initialState
                               "ai" = inr st'
                 /\ results st' = [].
Proof.
  split; [reflexivity|].
  exact (C9_empty_transcript String.compare transcriptEmpty initialState "ai"
                             eq_refl).
Defined.

(** C9 as worded fails: nothing raises [EmptyTranscriptError], and the
    search does run, since it records the query in the history. *)
Lemma C9_no_error_is_raised :
  searchOutcome String.compare transcriptEmpty initialState "ai"
    <> inl EmptyTranscriptError
  /\ searchHistory (search String.compare transcriptEmpty initialState "ai")
     = ["ai"].
Proof. split; [discriminate|reflexivity]. Qed.

(** ** The order of the stored results *)

Lemma Sorted_weaken {A : Type} (R S : A -> A -> Prop) (l : list A) :
  (forall a b, R a b -> S a b) -> Sorted R l -> Sorted S l.
Proof.
  intros HRS. induction 1 as [|x l Hs IH Hhd]; constructor; [assumption|].
  destruct Hhd; constructor; auto.
Qed.

Lemma StronglySorted_prefix {A : Type} (R : A -> A -> Prop)
    (l rest : list A) :
  StronglySorted R (l ++ rest) -> StronglySorted R l.
Proof.
  induction l as [|x l IH]; cbn [app]; intros H; [constructor|].
  inversion H as [|? ? Hs Hall]; subst. constructor; [auto|].
  rewrite Forall_forall in *. intros y Hy. apply Hall, in_or_app. now left.
Qed.

Lemma relevance_total (cmp : string -> string -> comparison)
    (a b : SearchResult) :
  compareResults cmp relevance a b = Gt ->
  compareResults cmp relevance b a <> Gt.
Proof.
  cbn [compareResults]. intros H.
  rewrite <- Qcompare_antisym, H. discriminate.
Qed.

Lemma relevance_sorted (cmp : string -> string -> comparison)
    (l : list SearchResult) :
  StronglySorted scoreDescends (Js.sort (compareResults cmp relevance) l).
Proof.
  apply Sorted_StronglySorted.
  - intros a b c Hab Hbc. unfold scoreDescends in *.
    now apply Qle_trans with (score b).
  - apply Sorted_weaken
      with (R := fun a b => compareResults cmp relevance a b <> Gt).
    + intros a b H. unfold scoreDescends. now apply Qle_alt.
    + apply sort_sorted, relevance_total.
Qed.

Lemma relevance_stable (cmp : string -> string -> comparison) (s : Q)
    (l : list SearchResult) :
  List.filter (tie s) (Js.sort (compareResults cmp relevance) l)
  = List.filter (tie s) l.
Proof.
  apply sort_filter. intros x y Hx Hy. cbn [compareResults].
  unfold tie in *. apply Qeq_bool_iff in Hx, Hy.
  assert (E : (score y ?= score x)%Q = Eq).
  { apply Qeq_alt. now rewrite Hx, Hy. }
  rewrite E. discriminate.
Qed.

Lemma hits_chronological (cmp : string -> string -> comparison)
    (T : Transcription) (q : string) :
  StronglySorted (startsAscend cmp) (segments T) ->
  StronglySorted (resultStartsAscend cmp) (searchResults T q).
Proof.
  intros H. rewrite searchResults_filter.
  apply (StronglySorted_map (startsAscend cmp) segment).
  rewrite map_map. cbn [resultOf segment]. rewrite map_id.
  now apply StronglySorted_filter.
Qed.

(** What the stable sort on scores gives, for any transcript: at most 10
    results, scores that never increase along the list, and results of
    equal score in the order their segments have in the transcript, hence
    in ascending start time whenever the transcript itself is. *)
Lemma relevance_order
    (localeCompare : string -> string -> comparison) (T : Transcription)
    (st : State) (q : string) :
  sortBy st = relevance ->
  List.length (results (search localeCompare T st q)) <= 10
  /\ StronglySorted scoreDescends (results (search localeCompare T st q))
  /\ (forall s, exists rest,
        List.filter (tie s) (searchResults T q)
        = List.filter (tie s) (results (search localeCompare T st q))
          ++ rest)
  /\ (StronglySorted (startsAscend localeCompare) (segments T) ->
      forall s,
        StronglySorted (resultStartsAscend localeCompare)
          (List.filter (tie s) (results (search localeCompare T st q)))).
Proof.
  intros Hmode. rewrite results_search, Hmode.
  destruct (Js.falsy (Js.trim q)).
  { split; [cbn; lia|]. split; [constructor|].
    split; [intros s; now eexists|intros _ s; constructor]. }
  unfold sortedResults.
  assert (Hties : forall s, exists rest,
             List.filter (tie s) (searchResults T q)
             = List.filter (tie s)
                 (firstn 10 (Js.sort (compareResults localeCompare relevance)
                                     (searchResults T q))) ++ rest).
  { intros s.
    rewrite <- (relevance_stable localeCompare s (searchResults T q)).
    apply filter_firstn_prefix. }
  repeat split.
  - apply firstn_le_length.
  - apply StronglySorted_firstn, relevance_sorted.
  - exact Hties.
  - intros Hchron s. destruct (Hties s) as [rest Hrest].
    apply StronglySorted_prefix with (rest := rest). rewrite <- Hrest.
    apply StronglySorted_filter. now apply hits_chronological.
Qed.

Lemma ranked_sorted (cmp : string -> string -> comparison)
    (l : list SearchResult) :
  StronglySorted scoreDescends l ->
  (forall s, StronglySorted (resultStartsAscend cmp) (List.filter (tie s) l)) ->
  StronglySorted (rankedBefore cmp) l.
Proof.
  induction l as [|x l IH]; intros Hscore Hties; [constructor|].
  inversion Hscore as [|? ? Hscore' Hall]; subst.
  assert (Hx : tie (score x) x = true) by apply Qeq_bool_refl.
  constructor.
  - apply IH; [assumption|]. intros s. specialize (Hties s).
    cbn [List.filter] in Hties.
    destruct (tie s x); [now inversion Hties|assumption].
  - specialize (Hties (score x)). cbn [List.filter] in Hties.
    rewrite Hx in Hties. inversion Hties as [|? ? _ Hstart]; subst.
    rewrite Forall_forall in *. intros y Hy.
    specialize (Hall y Hy). unfold scoreDescends in Hall.
    destruct (Qlt_le_dec (score y) (score x)) as [Hlt|Hle]; [now left|].
    assert (E : (score x == score y)%Q) by now apply Qle_antisym.
    right. split; [assumption|]. apply (Hstart y).
    apply filter_In. split; [assumption|].
    unfold tie. apply Qeq_bool_iff. now symmetry.
Qed.

(** C4.  For a transcript whose segments are in ascending start time, as
    the data model has them, the results stored in relevance mode are at
    most 10 and are ranked: a result with a higher score comes first, and
    of two results with equal scores the one whose segment starts first. *)
Theorem C4_ranked_order
    (localeCompare : string -> string -> comparison) (T : Transcription)
    (st : State) (q : string) :
  sortBy st = relevance ->
  StronglySorted (startsAscend localeCompare) (segments T) ->
  List.length (results (search localeCompare T st q)) <= 10
  /\ StronglySorted (rankedBefore localeCompare)
                    (results (search localeCompare T st q)).
Proof.
  intros Hmode Hchron.
  destruct (relevance_order localeCompare T st q Hmode)
    as (Hlen & Hscore & _ & Hties).
  split; [exact Hlen|].
  apply ranked_sorted; [exact Hscore|]. now apply Hties.
Qed.

Lemma C4_ranked_order_witness :
  StronglySorted (startsAscend String.compare) (segments transcriptTies)
  /\ List.length (results (search String.compare transcriptTies initialState
                                  "ai")) <= 10
  /\ StronglySorted (rankedBefore String.compare)
       (results (search String.compare transcriptTies initialState "ai")).
Proof.
  assert (Hchron : StronglySorted (startsAscend String.compare)
                                  (segments transcriptTies)).
  { repeat constructor. discriminate. }
  split; [exact Hchron|].
  exact (C4_ranked_order String.compare transcriptTies initialState "ai"
                         eq_refl Hchron).
Defined.

(** C5, as the code has it.  Both sort modes rank the same matches, with
    the same scores and contexts, and each stores the first 10 of its own
    order.  When at most 10 segments match, the results stored in time mode
    are a rearrangement of those stored in relevance mode; and they are in
    ascending start time, provided [localeCompare] never puts two strings
    each after the other. *)
Theorem C5_time_mode
    (localeCompare : string -> string -> comparison) (T : Transcription)
    (stT stR : State) (q : string) :
  sortBy stT = time ->
  sortBy stR = relevance ->
  Js.falsy (Js.trim q) = false ->
  Permutation (sortedResults localeCompare time T q)
              (sortedResults localeCompare relevance T q)
  /\ results (search localeCompare T stT q)
     = firstn 10 (sortedResults localeCompare time T q)
  /\ results (search localeCompare T stR q)
     = firstn 10 (sortedResults localeCompare relevance T q)
  /\ (List.length (searchResults T q) <= 10 ->
      Permutation (results (search localeCompare T stT q))
                  (results (search localeCompare T stR q)))
  /\ ((forall a b, localeCompare a b = Gt -> localeCompare b a <> Gt) ->
      Sorted (resultStartsAscend localeCompare)
             (results (search localeCompare T stT q))).
Proof.
  intros HT HR Hq. rewrite !results_search, Hq, HT, HR.
  assert (Hperm : Permutation (sortedResults localeCompare time T q)
                              (sortedResults localeCompare relevance T q)).
  { unfold sortedResults. now rewrite !sort_perm. }
  repeat split; try assumption.
  - intros Hlen.
    rewrite !firstn_all2; [assumption| |];
      unfold sortedResults; now rewrite sort_length.
  - intros Htot. apply Sorted_firstn. unfold sortedResults.
    apply (sort_sorted (compareResults localeCompare time)).
    intros a b. cbn [compareResults]. apply Htot.
Qed.

Lemma compare_total (a b : string) :
  String.compare a b = Gt -> String.compare b a <> Gt.
Proof.
  intros H. rewrite String.compare_antisym, H. discriminate.
Qed.

Lemma C5_time_mode_witness :
  Permutation
    (results (search String.compare transcriptTies timeState "ai"))
    (results (search String.compare transcriptTies initialState "ai"))
  /\ Sorted (resultStartsAscend String.compare)
            (results (search String.compare transcriptTies timeState "ai")).
Proof.
  pose proof (C5_time_mode String.compare transcriptTies timeState
                           initialState "ai" eq_refl eq_refl eq_refl)
    as (_ & _ & _ & Hp & Hs).
  split.
  - apply Hp. vm_compute. lia.
  - apply Hs. exact compare_total.
Defined.

(** C5 as worded fails.  Of eleven matching segments the time mode stores
    the earliest ten and the relevance mode the best ten: the segment that
    starts at 00:00:00 is stored by the first and not by the second. *)
Lemma C5_modes_store_different_sets :
  exists r,
    In r (results (search String.compare transcriptEleven timeState
                          "deep learning"))
    /\ ~ In r (results (search String.compare transcriptEleven initialState
                               "deep learning")).
Proof.
  exists (resultOf "deep learning" (segAI "00:00:00" "deep")). split.
  - vm_compute. left. reflexivity.
  - intros H. apply (in_map (fun r => start (segment r))) in H.
    vm_compute in H. intuition discriminate.
Qed.

(** ** [indexOf] finds the first occurrence *)

Lemma prefix_app (pat s : string) :
  String.prefix pat s = true <-> exists post, s = (pat ++ post)%string.
Proof.
  revert s. induction pat as [|a pat IH]; intros s.
  - split; [intros _; now exists s|now destruct s].
  - destruct s as [|b s]; cbn [String.prefix].
    + split; [discriminate|]. intros [post H]. discriminate.
    + destruct (ascii_dec a b) as [->|Hne].
      * rewrite IH. split; intros [post H]; exists post.
        -- cbn. now rewrite H.
        -- cbn in H. now injection H.
      * split; [discriminate|]. intros [post H]. cbn in H.
        injection H as H _. congruence.
Qed.

Lemma occursAt_zero (pat s : string) :
  occursAt pat s 0 <-> String.prefix pat s = true.
Proof.
  rewrite prefix_app. split.
  - intros (pre & post & H & Hlen).
    destruct pre; [|discriminate]. now exists post.
  - intros [post H]. exists EmptyString, post. now split.
Qed.

Lemma occursAt_succ (pat : string) (c : ascii) (s : string) (j : nat) :
  occursAt pat (String c s) (S j) <-> occursAt pat s j.
Proof.
  split.
  - intros (pre & post & H & Hlen).
    destruct pre as [|c' pre]; [discriminate|].
    cbn in H, Hlen. injection H as _ H. injection Hlen as Hlen.
    now exists pre, post.
  - intros (pre & post & H & Hlen).
    exists (String c pre), post. cbn. now rewrite H, Hlen.
Qed.

Lemma occursAt_empty (pat : string) (j : nat) :
  occursAt pat EmptyString j -> j = 0.
Proof.
  intros (pre & post & H & Hlen). destruct pre; [now subst|discriminate].
Qed.

Lemma indexOfFrom_spec (pat s : string) (i : Z) :
  (exists k, firstOccurrence pat s k
             /\ Js.indexOfFrom i pat s = (i + Z.of_nat k)%Z)
  \/ ((forall k, ~ occursAt pat s k) /\ Js.indexOfFrom i pat s = (-1)%Z).
Proof.
  revert i. induction s as [|c s IH]; intros i; cbn [Js.indexOfFrom].
  - destruct (String.prefix pat EmptyString) eqn:E.
    + left. exists 0. repeat split.
      * now apply occursAt_zero.
      * intros; lia.
      * lia.
    + right. split; [|reflexivity]. intros k Hk.
      pose proof (occursAt_empty _ _ Hk); subst.
      apply occursAt_zero in Hk. congruence.
  - destruct (String.prefix pat (String c s)) eqn:E.
    + left. exists 0. repeat split.
      * now apply occursAt_zero.
      * intros; lia.
      * lia.
    + destruct (IH (i + 1)%Z) as [(k & [Hocc Hmin] & Hidx)|[Hnone Hidx]].
      * left. exists (S k). repeat split.
        -- now apply occursAt_succ.
        -- intros [|j] Hj.
           ++ apply occursAt_zero in Hj. congruence.
           ++ apply occursAt_succ in Hj. apply Hmin in Hj. lia.
        -- lia.
      * right. split; [|assumption]. intros [|j] Hj.
        -- apply occursAt_zero in Hj. congruence.
        -- apply occursAt_succ in Hj. now apply (Hnone j).
Qed.

Lemma indexOf_first (s pat : string) (k : nat) :
  firstOccurrence pat s k -> Js.indexOf s pat = Z.of_nat k.
Proof.
  intros [Hocc Hmin]. unfold Js.indexOf.
  destruct (indexOfFrom_spec pat s 0)
    as [(k' & [Hocc' Hmin'] & Hidx)|[Hnone _]].
  - rewrite Hidx. apply Hmin in Hocc'. apply Hmin' in Hocc. lia.
  - now destruct (Hnone k).
Qed.

Lemma indexOf_absent (s pat : string) :
  (forall k, ~ occursAt pat s k) -> Js.indexOf s pat = (-1)%Z.
Proof.
  intros Hnone. unfold Js.indexOf.
  destruct (indexOfFrom_spec pat s 0) as [(k & [Hocc _] & _)|[_ Hidx]].
  - now destruct (Hnone k).
  - assumption.
Qed.

Lemma toLowerCase_length (s : string) :
  String.length (Js.toLowerCase s) = String.length s.
Proof. induction s; cbn; congruence. Qed.

Lemma append_cons (c : ascii) (a b : string) :
  (String c a ++ b)%string = String c (a ++ b)%string.
Proof. reflexivity. Qed.

Lemma append_length (a b : string) :
  String.length (a ++ b)%string = String.length a + String.length b.
Proof.
  induction a as [|c a IH]; [reflexivity|].
  rewrite append_cons. cbn [String.length]. now rewrite IH.
Qed.

Lemma append_empty (a : string) : (a ++ "")%string = a.
Proof.
  induction a as [|c a IH]; [reflexivity|].
  rewrite append_cons. now rewrite IH.
Qed.

Lemma occursAt_bound (pat s : string) (k : nat) :
  occursAt pat s k -> k + String.length pat <= String.length s.
Proof.
  intros (pre & post & -> & <-). rewrite !append_length. lia.
Qed.

Lemma substring_0_min (s : string) (m : nat) :
  String.substring 0 (Nat.min m (String.length s)) s = String.substring 0 m s.
Proof.
  revert m. induction s as [|c s IH]; intros [|m]; cbn; try reflexivity.
  now rewrite IH.
Qed.

Lemma indexOf_occurs (s pat : string) :
  Js.indexOf s pat = (-1)%Z -> forall k, ~ occursAt pat s k.
Proof.
  intros H. unfold Js.indexOf in H.
  destruct (indexOfFrom_spec pat s 0) as [(k & _ & Hidx)|[Hnone _]].
  - lia.
  - assumption.
Qed.

(** The context when [indexOf] returns [k] and the stretch of
    [query.length] characters from [k] lies inside the text. *)
Lemma getContext_at (text query : string) (k : nat) :
  Js.indexOf (Js.toLowerCase text) (Js.toLowerCase query) = Z.of_nat k ->
  k + String.length query <= String.length text ->
  let lo := k - 50 in
  let hi := Nat.min (String.length text) (k + String.length query + 50) in
  getContext text query
  = ((if (0 <? lo)%nat then "..." else "")
     ++ String.substring lo (hi - lo) text
     ++ (if (hi <? String.length text)%nat then "..." else ""))%string.
Proof.
  intros Hidx Hocc lo hi. unfold getContext. rewrite Hidx.
  destruct (Z.of_nat k =? -1)%Z eqn:E; [lia|]. clear E.
  unfold Js.substring.
  set (len := String.length text) in *.
  set (qlen := String.length query) in *.
  replace (Z.to_nat _) with lo by (subst lo hi; lia).
  replace (Z.to_nat _) with (hi - lo) by (subst lo hi; lia).
  replace (Z.max 0 (Z.of_nat k - 50) >? 0)%Z with (0 <? lo)
    by (subst lo; destruct (Nat.ltb_spec 0 (k - 50));
        destruct (Z.gtb_spec (Z.max 0 (Z.of_nat k - 50)) 0); lia).
  replace (Z.min (Z.of_nat len) (Z.of_nat k + Z.of_nat qlen + 50)
           <? Z.of_nat len)%Z with (hi <? len)
    by (subst hi;
        destruct (Nat.ltb_spec (Nat.min len (k + qlen + 50)) len);
        destruct (Z.ltb_spec
                    (Z.min (Z.of_nat len)
                           (Z.of_nat k + Z.of_nat qlen + 50))
                    (Z.of_nat len)); lia).
  destruct (0 <? lo), (hi <? len); cbn [String.append];
    rewrite ?append_empty; reflexivity.
Qed.

(** The same for a first occurrence.  [toLowerCase_length] is used here:
    the stretch lies inside the text because the lowercase form of a
    string of this model has the length of the string. *)
Lemma getContext_found (text query : string) (k : nat) :
  firstOccurrence (Js.toLowerCase query) (Js.toLowerCase text) k ->
  let lo := k - 50 in
  let hi := Nat.min (String.length text) (k + String.length query + 50) in
  getContext text query
  = ((if (0 <? lo)%nat then "..." else "")
     ++ String.substring lo (hi - lo) text
     ++ (if (hi <? String.length text)%nat then "..." else ""))%string.
Proof.
  intros Hk. apply getContext_at; [now apply indexOf_first|].
  destruct Hk as [Hocc _]. apply occursAt_bound in Hocc.
  now rewrite !toLowerCase_length in Hocc.
Qed.

(** The fallback, for a text of any length: the "..." is appended even
    when nothing was cut. *)
Lemma getContext_fallback (text query : string) :
  (forall k, ~ occursAt (Js.toLowerCase query) (Js.toLowerCase text) k) ->
  getContext text query = (String.substring 0 100 text ++ "...")%string.
Proof.
  intros Hnone. unfold getContext.
  rewrite (indexOf_absent _ _ Hnone). cbn [Z.eqb Pos.eqb].
  f_equal. unfold Js.substring.
  replace (Z.to_nat _) with 0 by lia.
  replace (Z.to_nat _) with (Nat.min 100 (String.length text)) by lia.
  apply substring_0_min.
Qed.

Lemma substring_whole (s : string) (m : nat) :
  String.length s <= m -> String.substring 0 m s = s.
Proof.
  revert m. induction s as [|c s IH]; intros [|m] H; cbn in *;
    try reflexivity; try lia.
  rewrite IH by lia. reflexivity.
Qed.

(** C7, where the code departs from it.  When the query occurs nowhere in a
    text of at most 100 characters, nothing is cut, and yet the context is
    the whole text followed by "...": the fallback appends its ellipsis
    unconditionally, whereas the branch for a query that is found marks
    real cuts only.  So the context is not the first 100 characters of the
    segment. *)
Theorem C7_short_text_fallback_ellipsis (text query : string) :
  (forall k, ~ occursAt (Js.toLowerCase query) (Js.toLowerCase text) k) ->
  String.length text <= 100 ->
  getContext text query = (text ++ "...")%string
  /\ getContext text query <> String.substring 0 100 text.
Proof.
  intros Hnone Hlen.
  rewrite (getContext_fallback text query Hnone).
  rewrite (substring_whole text 100 Hlen). split; [reflexivity|].
  intros E. apply (f_equal String.length) in E.
  rewrite append_length in E. cbn in E. lia.
Qed.

Lemma C7_short_text_fallback_ellipsis_witness :
  (forall k, ~ occursAt (Js.toLowerCase "deep learning")
                        (Js.toLowerCase "machine learning") k)
  /\ String.length "machine learning" <= 100
  /\ getContext "machine learning" "deep learning" = "machine learning...".
Proof.
  assert (H1 : forall k, ~ occursAt (Js.toLowerCase "deep learning")
                                    (Js.toLowerCase "machine learning") k).
  { apply indexOf_occurs. vm_compute. reflexivity. }
  assert (H2 : String.length "machine learning" <= 100).
  { vm_compute. lia. }
  split; [exact H1|]. split; [exact H2|].
  exact (proj1 (C7_short_text_fallback_ellipsis
                  "machine learning" "deep learning" H1 H2)).
Defined.

(** ** The query history *)

Lemma arrayIncludes_In (l : list string) (x : string) :
  Js.arrayIncludes l x = true <-> In x l.
Proof.
  unfold Js.arrayIncludes. rewrite existsb_exists. split.
  - intros (y & Hy & E). apply String.eqb_eq in E. now subst.
  - intros H. exists x. split; [assumption|apply String.eqb_refl].
Qed.

Lemma history_search (cmp : string -> string -> comparison)
    (T : Transcription) (st : State) (q : string) :
  searchHistory (search cmp T st q)
  = if Js.falsy (Js.trim q) then searchHistory st
    else if Js.arrayIncludes (searchHistory st) q then searchHistory st
         else q :: firstn 4 (searchHistory st).
Proof.
  unfold search, performSearch.
  destruct (Js.falsy (Js.trim q)); [reflexivity|].
  unfold searchCallback.
  destruct (Js.arrayIncludes (searchHistory st) q); reflexivity.
Qed.

Lemma NoDup_firstn {A : Type} (n : nat) (l : list A) :
  NoDup l -> NoDup (firstn n l).
Proof.
  revert l. induction n as [|n IH]; intros l H; [constructor|].
  destruct l as [|x l]; [constructor|].
  inversion H as [|? ? Hx Hl]; subst. cbn [firstn]. constructor; [|auto].
  intros Hin. now apply In_firstn in Hin.
Qed.

(** X9.  What the log looks like when searches do not overlap: at most
    five entries, no entry twice, and the entries in the order of the
    searches that added them, newest first. *)
Lemma sequential_history (cmp : string -> string -> comparison)
    (T : Transcription) (qs : list string) :
  List.length (searchHistory (searches cmp T initialState qs)) <= 5
  /\ NoDup (searchHistory (searches cmp T initialState qs))
  /\ searchHistory (searches cmp T initialState qs) `sublist_of` rev qs.
Proof.
  induction qs as [|q qs (Hlen & Hnd & Hsub)] using rev_ind.
  - cbn. repeat split; [lia|constructor|constructor].
  - unfold searches in *. rewrite fold_left_app. cbn [fold_left].
    rewrite history_search, rev_unit.
    set (h := searchHistory (fold_left (search cmp T) qs initialState)) in *.
    destruct (Js.falsy (Js.trim q));
      [repeat split; [assumption|assumption|now apply sublist_cons]|].
    destruct (Js.arrayIncludes h q) eqn:E;
      [repeat split; [assumption|assumption|now apply sublist_cons]|].
    repeat split.
    + cbn [List.length]. pose proof (firstn_le_length 4 h). lia.
    + constructor; [|now apply NoDup_firstn].
      intros Hin. apply In_firstn, arrayIncludes_In in Hin. congruence.
    + apply sublist_skip. etransitivity; [apply sublist_take|assumption].
Qed.

(** The stored results never depend on the log. *)
Lemma results_ignore_history (cmp : string -> string -> comparison)
    (T : Transcription) (st : State) (h : list string) (q : string) :
  results (search cmp T (setSearchHistory (fun _ => h) st) q)
  = results (search cmp T st q).
Proof. now rewrite !results_search. Qed.

(** The bound of five entries survives any interleaving of calls and
    timers, since every callback cuts the current log to four entries
    before it adds one. *)
Lemma searchCallback_bounded (cmp : string -> string -> comparison)
    (T : Transcription) (render : State) (q : string) (current : State) :
  List.length (searchHistory current) <= 5 ->
  List.length (searchHistory (searchCallback cmp T render q current)) <= 5.
Proof.
  intros H. unfold searchCallback.
  destruct (negb (Js.arrayIncludes (searchHistory render) q)); cbn.
  - pose proof (firstn_le_length 4 (searchHistory current)).
    unfold Js.slice0. lia.
  - assumption.
Qed.

Lemma step_bounded (cmp : string -> string -> comparison)
    (T : Transcription) (w : World) (e : Event) :
  List.length (searchHistory (state w)) <= 5 ->
  Forall (fun callback : State -> State =>
            forall st, List.length (searchHistory st) <= 5 ->
                       List.length (searchHistory (callback st)) <= 5)
         (timers w) ->
  List.length (searchHistory (state (step cmp T w e))) <= 5
  /\ Forall (fun callback : State -> State =>
               forall st, List.length (searchHistory st) <= 5 ->
                          List.length (searchHistory (callback st)) <= 5)
            (timers (step cmp T w e)).
Proof.
  intros Hs Ht. destruct e as [q|]; cbn [step].
  - unfold performSearch. destruct (Js.falsy (Js.trim q)); cbn.
    + now split.
    + split; [assumption|]. apply Forall_app. split; [assumption|].
      constructor; [|constructor].
      intros st. apply searchCallback_bounded.
  - destruct (timers w) as [|callback rest] eqn:E; [now rewrite E|].
    inversion Ht as [|? ? Hcb Hrest]; subst. cbn. split; auto.
Qed.

(** X10.  After any sequence of searches and timer expiries, overlapping
    or not, the log holds at most five entries. *)
Lemma run_history_bounded (cmp : string -> string -> comparison)
    (T : Transcription) (es : list Event) :
  List.length (searchHistory (state (run cmp T initialWorld es))) <= 5.
Proof.
  unfold run.
  assert (H : forall w,
             List.length (searchHistory (state w)) <= 5 ->
             Forall (fun callback : State -> State =>
                       forall st, List.length (searchHistory st) <= 5 ->
                         List.length (searchHistory (callback st)) <= 5)
                    (timers w) ->
             List.length
               (searchHistory (state (fold_left (step cmp T) es w))) <= 5).
  { induction es as [|e es IH]; intros w Hs Ht; cbn [fold_left].
    - assumption.
    - destruct (step_bounded cmp T w e Hs Ht) as [Hs' Ht'].
      now apply IH. }
  apply H; cbn; [lia|constructor].
Qed.

(** C8, where the code departs from it.  When the same new query is
    searched twice before the first timer fires, both callbacks test the
    history of the render that created them, which does not hold the query
    yet, and both add it: the log ends with the query twice. *)
Theorem C8_overlapping_searches_duplicate
    (localeCompare : string -> string -> comparison) (T : Transcription) :
  searchHistory
    (state (run localeCompare T initialWorld
                [PerformSearch "ai"; PerformSearch "ai"; TimerFires; TimerFires]))
  = ["ai"; "ai"].
Proof. reflexivity. Qed.

(** ** The concept map *)

Lemma find_id_None (i : string) (ns : list ConceptNode) :
  Js.find (fun n => String.eqb (node_id n) i) ns = None
  <-> ~ In i (map node_id ns).
Proof.
  unfold Js.find. split.
  - intros H Hin. apply in_map_iff in Hin as (n & <- & Hn).
    pose proof (find_none _ _ H n Hn) as E. cbn in E.
    now rewrite String.eqb_refl in E.
  - intros Hnot.
    destruct (List.find _ ns) as [n|] eqn:E; [|reflexivity].
    apply find_some in E as [Hn E]. apply String.eqb_eq in E.
    exfalso. apply Hnot. rewrite <- E. now apply in_map.
Qed.

Lemma fold_insert_dom (radius : Z) (count : nat)
    (l : list (nat * ConceptNode)) (m : gmap string Position) (i : string) :
  is_Some (fold_left
             (fun nodePositions '(index, node) =>
                <[node_id node := OnCircle radius index count]> nodePositions)
             l m !! i) ->
  is_Some (m !! i) \/ In i (map (fun p => node_id (snd p)) l).
Proof.
  revert m. induction l as [|[index node] l IH]; intros m H; cbn in *.
  - now left.
  - apply IH in H as [H|H]; [|now auto].
    rewrite lookup_insert in H. case_decide; [|now left].
    right. left. assumption.
Qed.

Lemma placeOnCircle_dom (radius : Z) (group : list ConceptNode)
    (m : gmap string Position) (i : string) :
  is_Some (placeOnCircle radius group m !! i) ->
  is_Some (m !! i) \/ In i (map node_id group).
Proof.
  intros H. apply fold_insert_dom in H as [H|H]; [now left|right].
  apply in_map_iff in H as ([index node] & <- & Hin).
  apply in_combine_r in Hin. now apply in_map.
Qed.

(** Only ids of nodes of the map receive a position. *)
Lemma calculateLayout_dom (cm : ConceptMap) (i : string) :
  is_Some (calculateLayout cm !! i) -> In i (map node_id (nodes cm)).
Proof.
  unfold calculateLayout. intros H.
  apply placeOnCircle_dom in H as [H|H].
  - apply placeOnCircle_dom in H as [H|H].
    + unfold Js.find in H.
      destruct (List.find _ (nodes cm)) as [root|] eqn:E.
      * rewrite lookup_insert in H. case_decide.
        -- subst i. apply find_some in E as [Hin _]. now apply in_map.
        -- rewrite lookup_empty in H. now destruct H.
      * rewrite lookup_empty in H. now destruct H.
    + apply in_map_iff in H as (n & <- & Hn).
      apply filter_In in Hn as [Hn _]. now apply in_map.
  - apply in_map_iff in H as (n & <- & Hn).
    apply filter_In in Hn as [Hn _]. now apply in_map.
Qed.

Lemma renderEdge_drawn (cm : ConceptMap) (hl : gset string) (sl : bool)
    (e : ConceptEdge) :
  renderEdge cm (calculateLayout cm) hl sl e <> None
  <-> is_Some (calculateLayout cm !! edge_from e)
      /\ is_Some (calculateLayout cm !! edge_to e).
Proof.
  unfold renderEdge. split.
  - destruct (Js.find _ (nodes cm)); [|congruence].
    destruct (Js.find _ (nodes cm)); [|congruence].
    destruct (calculateLayout cm !! edge_from e); [|congruence].
    destruct (calculateLayout cm !! edge_to e); [|congruence].
    intros _. split; eexists; reflexivity.
  - intros [Hf Ht].
    pose proof (calculateLayout_dom _ _ Hf) as Hfn.
    pose proof (calculateLayout_dom _ _ Ht) as Htn.
    destruct (Js.find _ (nodes cm)) eqn:E1;
      [|apply find_id_None in E1; contradiction].
    destruct (Js.find (fun n => String.eqb (node_id n) (edge_to e))
                      (nodes cm)) eqn:E2;
      [|apply find_id_None in E2; contradiction].
    destruct Hf as [pf ->], Ht as [pt ->]. discriminate.
Qed.

(** C10.  Rendering the edges of any concept map yields one outcome for
    each edge, in order, and never raises.  An edge whose [from] or [to] is
    not the id of a node of the map is rendered as nothing; an edge that is
    drawn has both ends among the node ids (it is drawn exactly when the
    layout has a position for both ends). *)
Theorem C10_dangling_edges_skipped (cm : ConceptMap) (hl : gset string)
    (sl : bool) :
  List.length (renderEdges cm hl sl) = List.length (edges cm)
  /\ forall i e,
       nth_error (edges cm) i = Some e ->
       exists r,
         nth_error (renderEdges cm hl sl) i = Some r
         /\ (~ In (edge_from e) (map node_id (nodes cm))
             \/ ~ In (edge_to e) (map node_id (nodes cm)) ->
             r = None)
         /\ (r <> None ->
             In (edge_from e) (map node_id (nodes cm))
             /\ In (edge_to e) (map node_id (nodes cm)))
         /\ (r <> None <->
             is_Some (calculateLayout cm !! edge_from e)
             /\ is_Some (calculateLayout cm !! edge_to e)).
Proof.
  split; [apply length_map|].
  intros i e He.
  exists (renderEdge cm (calculateLayout cm) hl sl e).
  assert (Hdrawn : renderEdge cm (calculateLayout cm) hl sl e <> None ->
                   In (edge_from e) (map node_id (nodes cm))
                   /\ In (edge_to e) (map node_id (nodes cm))).
  { intros H. apply renderEdge_drawn in H as [Hf Ht].
    split; now apply calculateLayout_dom. }
  split; [unfold renderEdges; rewrite nth_error_map, He; reflexivity|].
  split; [|split; [exact Hdrawn|apply renderEdge_drawn]].
  intros Hmiss.
  destruct (renderEdge cm (calculateLayout cm) hl sl e) as [el|] eqn:E;
    [|reflexivity].
  assert (Hsome : Some el <> None) by discriminate.
  apply Hdrawn in Hsome. tauto.
Qed.

Lemma C10_dangling_edges_skipped_witness :
  ~ In "ghost" (map node_id (nodes mapDangling))
  /\ nth_error (renderEdges mapDangling ∅ true) 1 = Some None.
Proof.
  assert (Hghost : ~ In "ghost" (map node_id (nodes mapDangling))).
  { cbn. intuition discriminate. }
  split; [exact Hghost|].
  destruct (proj2 (C10_dangling_edges_skipped mapDangling ∅ true) 1 _ eq_refl)
    as (r & Hr & Hskip & _).
  rewrite Hr. f_equal. apply Hskip. right. exact Hghost.
Defined.

(** ** Further properties of the search *)

Lemma append_assoc (a b c : string) :
  ((a ++ b) ++ c)%string = (a ++ (b ++ c))%string.
Proof.
  induction a as [|x a IH]; [reflexivity|].
  rewrite !append_cons. now rewrite IH.
Qed.

Lemma includes_occurs (s pat : string) :
  Js.includes s pat = true <-> exists k, occursAt pat s k.
Proof.
  unfold Js.includes, Js.indexOf.
  destruct (indexOfFrom_spec pat s 0) as [(k & [Hocc _] & Hidx)|[Hnone Hidx]];
    rewrite Hidx.
  - split; [intros _; now exists k|intros _].
    destruct (Z.eqb_spec (0 + Z.of_nat k) (-1)); [lia|reflexivity].
  - split; [discriminate|]. intros [k Hk]. now destruct (Hnone k).
Qed.

Lemma includes_empty (s : string) : Js.includes s EmptyString = true.
Proof.
  apply includes_occurs. exists 0, EmptyString, s. now split.
Qed.

Lemma occurs_trans (a b c : string) :
  (exists j, occursAt a b j) -> (exists k, occursAt b c k) ->
  exists k, occursAt a c k.
Proof.
  intros (j & pre1 & post1 & -> & _) (k & pre2 & post2 & -> & _).
  exists (String.length (pre2 ++ pre1)), (pre2 ++ pre1)%string,
         (post1 ++ post2)%string.
  split; [|reflexivity]. now rewrite !append_assoc.
Qed.

Lemma split_occurs (sep : ascii) (s t : string) :
  In t (Js.split sep s) -> exists k, occursAt t s k.
Proof.
  assert (H : forall s,
             (forall w ws, Js.split sep s = w :: ws ->
                           exists post, s = (w ++ post)%string)
             /\ (forall t, In t (Js.split sep s) ->
                           exists k, occursAt t s k)).
  { clear s t. induction s as [|c s [IHhd IHin]]; cbn [Js.split].
    - split.
      + intros w ws E. injection E as <- _. now exists EmptyString.
      + intros t [<-|[]]. exists 0, EmptyString, EmptyString. now split.
    - destruct (Ascii.eqb c sep).
      + split.
        * intros w ws E. injection E as <- _. now exists (String c s).
        * intros t [<-|Hin].
          -- exists 0, EmptyString, (String c s). now split.
          -- destruct (IHin t Hin) as (k & pre & post & -> & _).
             exists (S (String.length pre)), (String c pre), post.
             now split.
      + destruct (Js.split sep s) as [|w ws] eqn:E.
        * now destruct (split_not_nil sep s).
        * destruct (IHhd w ws eq_refl) as [post Hpost]. split.
          -- intros w' ws' E'. injection E' as <- _.
             exists post. rewrite append_cons. now rewrite <- Hpost.
          -- intros t [<-|Hin].
             ++ exists 0, EmptyString, post. split; [|reflexivity].
                cbn [String.append]. rewrite append_cons.
                now rewrite <- Hpost.
             ++ destruct (IHin t (or_intror Hin))
                  as (k & pre & post' & -> & _).
                exists (S (String.length pre)), (String c pre), post'.
                now split. }
  apply H.
Qed.

Lemma filter_all {A : Type} (p : A -> bool) (l : list A) :
  (forall x, In x l -> p x = true) -> List.filter p l = l.
Proof.
  induction l as [|x l IH]; intros H; [reflexivity|]. cbn [List.filter].
  rewrite (H x (or_introl eq_refl)). f_equal. apply IH.
  intros y Hy. apply H. now right.
Qed.

Lemma phrase_present_all_terms (q : string) (seg : TextSegment) :
  Js.includes (Js.toLowerCase (text seg)) (Js.toLowerCase q) = true ->
  presentTerms q seg = searchTerms q.
Proof.
  intros H. unfold presentTerms. apply filter_all. intros t Ht.
  apply includes_occurs.
  apply occurs_trans with (b := Js.toLowerCase q).
  - now apply split_occurs in Ht.
  - now apply includes_occurs.
Qed.

(** X1.  A stored result scores exactly 3 when the lowercased query is a
    substring of the lowercased text of its segment (then every term is
    found and every term earns the bonus), and at most 1 otherwise. *)
Theorem X1_score_three_or_at_most_one
    (localeCompare : string -> string -> comparison) (T : Transcription)
    (st : State) (q : string) (r : SearchResult) :
  In r (results (search localeCompare T st q)) ->
  (Js.includes (Js.toLowerCase (text (segment r))) (Js.toLowerCase q) = true
   -> (score r == 3)%Q)
  /\ (Js.includes (Js.toLowerCase (text (segment r))) (Js.toLowerCase q)
      = false
      -> (score r <= 1)%Q).
Proof.
  intros H. apply results_from_segments in H as (seg & _ & _ & ->).
  cbn [resultOf score segment]. rewrite relevanceScore_count.
  pose proof (searchTerms_length q) as Hn.
  assert (Hpos : (0 < inject_Z (Z.of_nat (List.length (searchTerms q))))%Q).
  { change 0%Q with (inject_Z 0). rewrite <- Zlt_Qlt. lia. }
  split; intros Hinc; rewrite Hinc.
  - rewrite (phrase_present_all_terms _ _ Hinc).
    replace (Z.of_nat (List.length (searchTerms q)
                       + 2 * List.length (searchTerms q)))
      with (3 * Z.of_nat (List.length (searchTerms q)))%Z by lia.
    rewrite inject_Z_mult. apply Qdiv_mult_l.
    intros E. rewrite E in Hpos. now apply Qlt_irrefl in Hpos.
  - apply Qle_shift_div_r; [assumption|].
    rewrite Qmult_1_l, <- Zle_Qle.
    pose proof (filter_length_le
                  (Js.includes (Js.toLowerCase (text seg))) (searchTerms q)).
    unfold presentTerms. lia.
Qed.

Lemma X1_score_three_or_at_most_one_witness :
  let r := resultOf "deep learning" (segAI "00:00:00" "deep") in
  In r (results (search String.compare transcriptEleven timeState
                        "deep learning"))
  /\ (score r <= 1)%Q.
Proof.
  intros r.
  assert (H : In r (results (search String.compare transcriptEleven timeState
                                    "deep learning"))).
  { vm_compute. left. reflexivity. }
  split; [exact H|].
  exact (proj2 (X1_score_three_or_at_most_one
                  String.compare transcriptEleven timeState "deep learning"
                  r H) eq_refl).
Defined.

Lemma empty_term_matches (q : string) (seg : TextSegment) :
  In EmptyString (searchTerms q) -> matches q seg = true.
Proof.
  intros H. unfold matches. apply Nat.ltb_lt.
  rewrite relevanceScore_count.
  assert (Hin : In EmptyString (presentTerms q seg)).
  { unfold presentTerms. apply filter_In. split; [assumption|].
    apply includes_empty. }
  destruct (presentTerms q seg); [destruct Hin|cbn [List.length]; lia].
Qed.

Lemma lowerChar_space : Js.lowerChar " "%char = " "%char.
Proof. reflexivity. Qed.

(** X2.  When one of the terms of the query is empty, every segment of the
    transcript matches: the hits are all the segments, in order.  A query
    that begins with a space is such a query. *)
Theorem X2_empty_term_matches_every_segment (T : Transcription) (q : string) :
  (In EmptyString (searchTerms q) ->
   map segment (searchResults T q) = segments T)
  /\ map segment (searchResults T (String " "%char q)) = segments T.
Proof.
  assert (H : forall q', In EmptyString (searchTerms q') ->
                         map segment (searchResults T q') = segments T).
  { intros q' Hq'. rewrite searchResults_filter, map_map.
    cbn [resultOf segment]. rewrite map_id. apply filter_all.
    intros seg _. now apply empty_term_matches. }
  split; [apply H|]. apply H.
  unfold searchTerms. cbn [Js.toLowerCase Js.split].
  rewrite lowerChar_space. cbn. now left.
Qed.

Lemma X2_empty_term_matches_every_segment_witness :
  In EmptyString (searchTerms "ai  ml")
  /\ map segment (searchResults transcript1 "ai  ml") = segments transcript1.
Proof.
  assert (H : In EmptyString (searchTerms "ai  ml")).
  { vm_compute. right. left. reflexivity. }
  split; [exact H|].
  exact (proj1 (X2_empty_term_matches_every_segment transcript1 "ai  ml") H).
Defined.

Lemma searchResults_case (T : Transcription) (q1 q2 : string) :
  Js.toLowerCase q1 = Js.toLowerCase q2 ->
  String.length q1 = String.length q2 ->
  searchResults T q1 = searchResults T q2.
Proof.
  intros H Hlen. rewrite !searchResults_filter.
  assert (Hrel : forall seg, relevanceScore q1 seg = relevanceScore q2 seg).
  { intros seg. unfold relevanceScore, searchTerms. now rewrite H. }
  assert (Hres : forall seg, resultOf q1 seg = resultOf q2 seg).
  { intros seg. unfold resultOf, getContext, searchTerms.
    now rewrite Hrel, H, Hlen. }
  rewrite (map_ext _ _ Hres). f_equal.
  apply filter_ext. intros seg. unfold matches. now rewrite Hrel.
Qed.

(** X3.  The search is blind to the case of the query: two queries that
    have the same lowercase form and the same length, and are both blank
    or both not, store the same results, with the same scores and the same
    contexts. *)
Theorem X3_query_case_is_ignored
    (localeCompare : string -> string -> comparison) (T : Transcription)
    (st : State) (q1 q2 : string) :
  Js.toLowerCase q1 = Js.toLowerCase q2 ->
  String.length q1 = String.length q2 ->
  Js.falsy (Js.trim q1) = Js.falsy (Js.trim q2) ->
  results (search localeCompare T st q1)
  = results (search localeCompare T st q2).
Proof.
  intros H Hlen Hblank. rewrite !results_search, Hblank.
  unfold sortedResults. now rewrite (searchResults_case T q1 q2 H Hlen).
Qed.

Lemma X3_query_case_is_ignored_witness :
  Js.toLowerCase "Machine LEARNING" = Js.toLowerCase "machine learning"
  /\ results (search String.compare transcript1 initialState
                     "Machine LEARNING")
     = results (search String.compare transcript1 initialState
                       "machine learning").
Proof.
  split; [reflexivity|].
  exact (X3_query_case_is_ignored String.compare transcript1 initialState
                                  "Machine LEARNING" "machine learning"
                                  eq_refl eq_refl eq_refl).
Defined.

(** X4.  Nothing is stored without a match: every stored result carries a
    segment of the transcript in whose lowercased text at least one term of
    the query occurs, and its context is taken from that segment. *)
Theorem X4_results_are_matching_segments
    (localeCompare : string -> string -> comparison) (T : Transcription)
    (st : State) (q : string) (r : SearchResult) :
  In r (results (search localeCompare T st q)) ->
  In (segment r) (segments T)
  /\ (exists term k,
        In term (searchTerms q)
        /\ occursAt term (Js.toLowerCase (text (segment r))) k)
  /\ context r = getContext (text (segment r)) q.
Proof.
  intros H. apply results_from_segments in H as (seg & Hin & Hm & ->).
  cbn [resultOf segment context]. split; [assumption|].
  split; [|reflexivity].
  unfold matches in Hm. apply Nat.ltb_lt in Hm.
  rewrite relevanceScore_count in Hm.
  destruct (presentTerms q seg) as [|term rest] eqn:E.
  - destruct (Js.includes _ (Js.toLowerCase q)); cbn in Hm; lia.
  - assert (Hterm : In term (presentTerms q seg)) by (rewrite E; now left).
    unfold presentTerms in Hterm. apply filter_In in Hterm as [Ht Hinc].
    apply includes_occurs in Hinc as [k Hk]. now exists term, k.
Qed.

Lemma X4_results_are_matching_segments_witness :
  let r := resultOf "machine learning" seg1 in
  In r (results (search String.compare transcript1 initialState
                        "machine learning"))
  /\ In (segment r) (segments transcript1).
Proof.
  intros r.
  assert (H : In r (results (search String.compare transcript1 initialState
                                    "machine learning"))).
  { vm_compute. left. reflexivity. }
  split; [exact H|].
  exact (proj1 (X4_results_are_matching_segments
                  String.compare transcript1 initialState "machine learning"
                  r H)).
Defined.

Lemma substring_length_le (n m : nat) (s : string) :
  String.length (String.substring n m s) <= m.
Proof.
  revert n m. induction s as [|c s IH]; intros [|n] [|m]; cbn; try lia.
  - specialize (IH 0 m). lia.
  - apply (IH n 0).
  - apply (IH n (S m)).
Qed.

(** X5.  A context is never longer than the query plus 106 characters: a
    window of 50 characters on each side of the match and two ellipses, or
    100 characters and one ellipsis when the query does not occur. *)
Theorem X5_context_length (text query : string) :
  String.length (getContext text query) <= String.length query + 106.
Proof.
  destruct (indexOfFrom_spec (Js.toLowerCase query) (Js.toLowerCase text) 0)
    as [(k & Hk & _)|[Hnone _]].
  - rewrite (getContext_found text query k Hk).
    rewrite !append_length.
    pose proof (substring_length_le
                  (k - 50)
                  (Nat.min (String.length text)
                           (k + String.length query + 50) - (k - 50))
                  text) as Hw.
    destruct (0 <? k - 50);
      destruct (Nat.min (String.length text) (k + String.length query + 50)
                <? String.length text);
      cbn [String.length]; lia.
  - rewrite (getContext_fallback text query Hnone), append_length.
    pose proof (substring_length_le 0 100 text). cbn [String.length]. lia.
Qed.

Lemma append_nil_l (s : string) : ("" ++ s)%string = s.
Proof. reflexivity. Qed.






(** ** The spinner and the sort mode *)

Lemma searchCallback_stops_spinner (cmp : string -> string -> comparison)
    (T : Transcription) (render : State) (q : string) (current : State) :
  isSearching (searchCallback cmp T render q current) = false.
Proof.
  unfold searchCallback.
  destruct (negb (Js.arrayIncludes (searchHistory render) q)); reflexivity.
Qed.

Lemma step_spinner (cmp : string -> string -> comparison)
    (T : Transcription) (w : World) (e : Event) :
  (isSearching (state w) = true -> timers w <> []) ->
  Forall (fun callback : State -> State =>
            forall st, isSearching (callback st) = false) (timers w) ->
  (isSearching (state (step cmp T w e)) = true -> timers (step cmp T w e) <> [])
  /\ Forall (fun callback : State -> State =>
               forall st, isSearching (callback st) = false)
            (timers (step cmp T w e)).
Proof.
  intros Hs Ht. destruct e as [q|]; cbn [step].
  - unfold performSearch. destruct (Js.falsy (Js.trim q)); cbn.
    + split; assumption.
    + split.
      * intros _ E. now apply app_eq_nil in E as [_ E].
      * apply Forall_app. split; [assumption|].
        constructor; [|constructor].
        intros st. apply searchCallback_stops_spinner.
  - destruct (timers w) as [|callback rest] eqn:E.
    + rewrite E. split; assumption.
    + inversion Ht as [|? ? Hcb Hrest]; subst. cbn. split; [|assumption].
      rewrite Hcb. discriminate.
Qed.

(** X7.  The spinner cannot stay on: after any sequence of searches and
    timer expiries, [isSearching] is false as soon as no timer is
    pending. *)
Theorem X7_spinner_stops
    (localeCompare : string -> string -> comparison) (T : Transcription)
    (es : list Event) :
  timers (run localeCompare T initialWorld es) = [] ->
  isSearching (state (run localeCompare T initialWorld es)) = false.
Proof.
  unfold run.
  assert (H : forall w,
             (isSearching (state w) = true -> timers w <> []) ->
             Forall (fun callback : State -> State =>
                       forall st, isSearching (callback st) = false)
                    (timers w) ->
             timers (fold_left (step localeCompare T) es w) = [] ->
             isSearching (state (fold_left (step localeCompare T) es w))
             = false).
  { induction es as [|e es IH]; intros w Hs Ht Hnil; cbn [fold_left] in *.
    - destruct (isSearching (state w)); [|reflexivity].
      now destruct (Hs eq_refl).
    - destruct (step_spinner localeCompare T w e Hs Ht) as [Hs' Ht'].
      now apply IH. }
  apply H; cbn; [discriminate|constructor].
Qed.

Lemma X7_spinner_stops_witness :
  timers (run String.compare transcript1 initialWorld
              [PerformSearch "ai"; PerformSearch "ml"; TimerFires;
               TimerFires]) = []
  /\ isSearching
       (state (run String.compare transcript1 initialWorld
                   [PerformSearch "ai"; PerformSearch "ml"; TimerFires;
                    TimerFires])) = false.
Proof.
  split; [reflexivity|].
  exact (X7_spinner_stops String.compare transcript1
           [PerformSearch "ai"; PerformSearch "ml"; TimerFires; TimerFires]
           eq_refl).
Defined.

Lemma settle_performSearch (cmp : string -> string -> comparison)
    (T : Transcription) (st : State) (q : string) :
  SearchTabHandlers.settle (performSearch cmp T st q) = search cmp T st q.
Proof.
  unfold SearchTabHandlers.settle, search.
  destruct (performSearch cmp T st q) as [st' [callback|]]; reflexivity.
Qed.

Lemma search_keeps (cmp : string -> string -> comparison)
    (T : Transcription) (st : State) (q : string) :
  query (search cmp T st q) = query st
  /\ sortBy (search cmp T st q) = sortBy st.
Proof.
  unfold search, performSearch.
  destruct (Js.falsy (Js.trim q)); [now split|].
  unfold searchCallback.
  destruct (negb (Js.arrayIncludes (searchHistory st) q)); now split.
Qed.

Lemma sortBy_eqb_eq (a b : SortBy) :
  SearchTabHandlers.sortBy_eqb a b = true <-> a = b.
Proof. destruct a, b; cbn; split; congruence. Qed.

Lemma history_has_query (cmp : string -> string -> comparison)
    (T : Transcription) (st : State) (q : string) :
  Js.falsy (Js.trim q) = false ->
  Js.arrayIncludes (searchHistory (search cmp T st q)) q = true.
Proof.
  intros Hq. rewrite history_search, Hq.
  destruct (Js.arrayIncludes (searchHistory st) q) eqn:E; [assumption|].
  apply arrayIncludes_In. now left.
Qed.

Lemma changeSortBy_settled (cmp : string -> string -> comparison)
    (T : Transcription) (st : State) (q : string) (s : SortBy) :
  Js.falsy (Js.trim q) = false ->
  query st = q ->
  s <> sortBy st ->
  Js.arrayIncludes (searchHistory st) q = true ->
  let st' := SearchTabHandlers.settle
               (SearchTabHandlers.changeSortBy cmp T st s) in
  results st' = firstn 10 (sortedResults cmp s T q)
  /\ searchHistory st' = searchHistory st
  /\ query st' = q
  /\ sortBy st' = s.
Proof.
  intros Hq Hquery Hs Hhist. unfold SearchTabHandlers.changeSortBy.
  destruct (SearchTabHandlers.sortBy_eqb s (sortBy st)) eqn:E;
    [apply sortBy_eqb_eq in E; contradiction|].
  cbn [setSortBy query]. rewrite Hquery.
  destruct (Js.falsy q) eqn:Eq; [destruct q; [discriminate|discriminate]|].
  cbn zeta. rewrite settle_performSearch.
  rewrite results_search, history_search, Hq.
  destruct (search_keeps cmp T (setSortBy s st) q) as [-> ->].
  cbn [setSortBy sortBy searchHistory query]. rewrite Hhist.
  repeat split; [assumption].
Qed.

(** X8.  Changing the sort mode after a search runs the search again for
    the same query: the stored results become the first 10 in the new
    order, the history gains nothing, and changing back restores the
    results that were stored before. *)
Theorem X8_sort_change_reruns_search
    (localeCompare : string -> string -> comparison) (T : Transcription)
    (st : State) (q : string) (s : SortBy) :
  Js.falsy (Js.trim q) = false ->
  s <> sortBy st ->
  let st1 := SearchTabHandlers.settle
               (SearchTabHandlers.handleSearch localeCompare T st q) in
  let st2 := SearchTabHandlers.settle
               (SearchTabHandlers.changeSortBy localeCompare T st1 s) in
  let st3 := SearchTabHandlers.settle
               (SearchTabHandlers.changeSortBy localeCompare T st2
                                               (sortBy st)) in
  results st2 = firstn 10 (sortedResults localeCompare s T q)
  /\ searchHistory st2 = searchHistory st1
  /\ results st3 = results st1
  /\ searchHistory st3 = searchHistory st1.
Proof.
  intros Hq Hs st1 st2 st3.
  assert (E1 : st1 = search localeCompare T
                            (SearchTabHandlers.setQuery q st) q).
  { subst st1. unfold SearchTabHandlers.handleSearch.
    apply settle_performSearch. }
  destruct (search_keeps localeCompare T
                         (SearchTabHandlers.setQuery q st) q) as [Kq Ks].
  rewrite <- E1 in Kq, Ks. cbn in Kq, Ks.
  assert (H1 : Js.arrayIncludes (searchHistory st1) q = true).
  { rewrite E1. now apply history_has_query. }
  assert (R1 : results st1
               = firstn 10 (sortedResults localeCompare (sortBy st) T q)).
  { rewrite E1, results_search, Hq. reflexivity. }
  destruct (changeSortBy_settled localeCompare T st1 q s Hq Kq)
    as (R2 & Hh2 & Kq2 & Ks2); [congruence|assumption|].
  fold st2 in R2, Hh2, Kq2, Ks2.
  destruct (changeSortBy_settled localeCompare T st2 q (sortBy st) Hq Kq2)
    as (R3 & Hh3 & _ & _); [congruence|congruence|].
  fold st3 in R3, Hh3.
  repeat split; congruence.
Qed.

Lemma X8_sort_change_reruns_search_witness :
  results
    (SearchTabHandlers.settle
       (SearchTabHandlers.changeSortBy String.compare transcriptEleven
          (SearchTabHandlers.settle
             (SearchTabHandlers.handleSearch String.compare transcriptEleven
                                             initialState "deep learning"))
          time))
  = firstn 10 (sortedResults String.compare time transcriptEleven
                             "deep learning").
Proof.
  assert (Hs : time <> sortBy initialState) by discriminate.
  exact (proj1 (X8_sort_change_reruns_search
                  String.compare transcriptEleven initialState
                  "deep learning" time eq_refl Hs)).
Defined.

(** ** The selection of segments *)

(** X11.  Selecting a result twice restores the selection: the updater of
    [toggleSegmentSelection] flips the membership of its index, leaves
    every other index alone, and is its own inverse. *)
Theorem X11_toggle_segment_selection (index : nat) (prev : gset nat) :
  (index ∈ SearchTabHandlers.toggleSegmentSelection index prev
   <-> index ∉ prev)
  /\ (forall j, j <> index ->
        (j ∈ SearchTabHandlers.toggleSegmentSelection index prev
         <-> j ∈ prev))
  /\ SearchTabHandlers.toggleSegmentSelection index
       (SearchTabHandlers.toggleSegmentSelection index prev) = prev.
Proof.
  assert (Hflip : forall s : gset nat,
             index ∈ SearchTabHandlers.toggleSegmentSelection index s
             <-> index ∉ s).
  { intros s. unfold SearchTabHandlers.toggleSegmentSelection.
    case_bool_decide.
    - rewrite elem_of_difference, elem_of_singleton. tauto.
    - rewrite elem_of_union, elem_of_singleton. tauto. }
  assert (Hother : forall (s : gset nat) j, j <> index ->
             (j ∈ SearchTabHandlers.toggleSegmentSelection index s
              <-> j ∈ s)).
  { intros s j Hj. unfold SearchTabHandlers.toggleSegmentSelection.
    case_bool_decide.
    - rewrite elem_of_difference, elem_of_singleton. tauto.
    - rewrite elem_of_union, elem_of_singleton. tauto. }
  split; [apply Hflip|]. split; [apply Hother|].
  apply set_eq. intros j. destruct (decide (j = index)) as [->|Hj].
  - rewrite Hflip, Hflip. destruct (decide (index ∈ prev)); tauto.
  - now rewrite !Hother.
Qed.

(** ** The filter of the transcript tab *)

Lemma filter_sublist {A : Type} (p1 p2 : A -> bool) (l : list A) :
  (forall x, p2 x = true -> p1 x = true) ->
  List.filter p2 l `sublist_of` List.filter p1 l.
Proof.
  intros H. induction l as [|x l IH]; cbn [List.filter]; [constructor|].
  destruct (p2 x) eqn:E2.
  - rewrite (H x E2). now apply sublist_skip.
  - destruct (p1 x); [now apply sublist_cons|assumption].
Qed.

Lemma filter_is_sublist {A : Type} (p : A -> bool) (l : list A) :
  List.filter p l `sublist_of` l.
Proof.
  induction l as [|x l IH]; cbn [List.filter]; [constructor|].
  destruct (p x); [now apply sublist_skip|now apply sublist_cons].
Qed.

(** X12.  A term whose lowercase form contains the lowercase form of
    another term never shows a segment that the other term hides: the
    segments kept for it form a sublist of those kept for the other term,
    which form a sublist of the transcript. *)
Theorem X12_longer_term_narrows (T : Transcription) (t u : string) :
  (exists k, occursAt (Js.toLowerCase t) (Js.toLowerCase u) k) ->
  TranscriptionTab.filteredSegments T u
    `sublist_of` TranscriptionTab.filteredSegments T t
  /\ TranscriptionTab.filteredSegments T t `sublist_of` segments T.
Proof.
  intros Htu. split; [|apply filter_is_sublist].
  apply filter_sublist. intros seg H.
  apply includes_occurs. apply includes_occurs in H.
  now apply occurs_trans with (b := Js.toLowerCase u).
Qed.

Lemma X12_longer_term_narrows_witness :
  (exists k, occursAt (Js.toLowerCase "Learn")
                      (Js.toLowerCase "machine learning") k)
  /\ TranscriptionTab.filteredSegments transcript1 "machine learning"
       `sublist_of` TranscriptionTab.filteredSegments transcript1 "Learn".
Proof.
  assert (H : exists k, occursAt (Js.toLowerCase "Learn")
                                 (Js.toLowerCase "machine learning") k).
  { exists 8, "machine ", "ing". split; reflexivity. }
  split; [exact H|].
  exact (proj1 (X12_longer_term_narrows transcript1 "Learn"
                                        "machine learning" H)).
Defined.

(** X13.  With an empty search term the filter keeps every segment, so the
    list the segments view shows is the filtered list for every term, the
    empty one included. *)
Theorem X13_empty_term_shows_all (T : Transcription) (searchTerm : string) :
  TranscriptionTab.filteredSegments T "" = segments T
  /\ TranscriptionTab.shownSegments T searchTerm
     = TranscriptionTab.filteredSegments T searchTerm.
Proof.
  assert (H : TranscriptionTab.filteredSegments T "" = segments T).
  { apply filter_all. intros seg _. apply includes_empty. }
  split; [exact H|].
  unfold TranscriptionTab.shownSegments.
  destruct searchTerm; [now rewrite H|reflexivity].
Qed.

(** X14.  The two tabs agree on whole-query matches: a segment that the
    transcript filter keeps for a term is a hit of the search for the same
    query, and its score there is 3. *)
Theorem X14_filtered_segment_is_a_hit (T : Transcription) (q : string)
    (seg : TextSegment) :
  In seg (TranscriptionTab.filteredSegments T q) ->
  In (resultOf q seg) (searchResults T q)
  /\ (score (resultOf q seg) == 3)%Q.
Proof.
  intros H. apply filter_In in H as [Hin Hinc].
  pose proof (searchTerms_length q) as Hn.
  assert (Hrel : relevanceScore q seg = 3 * List.length (searchTerms q)).
  { rewrite relevanceScore_count, Hinc.
    rewrite (phrase_present_all_terms _ _ Hinc). lia. }
  split.
  - rewrite searchResults_filter. apply in_map, filter_In.
    split; [assumption|]. unfold matches. apply Nat.ltb_lt. lia.
  - cbn [resultOf score]. rewrite Hrel.
    replace (Z.of_nat (3 * List.length (searchTerms q)))
      with (3 * Z.of_nat (List.length (searchTerms q)))%Z by lia.
    rewrite inject_Z_mult. apply Qdiv_mult_l.
    assert (Hpos : (0 < inject_Z (Z.of_nat (List.length (searchTerms q))))%Q).
    { change 0%Q with (inject_Z 0). rewrite <- Zlt_Qlt. lia. }
    intros E. rewrite E in Hpos. now apply Qlt_irrefl in Hpos.
Qed.

Lemma X14_filtered_segment_is_a_hit_witness :
  In seg1 (TranscriptionTab.filteredSegments transcript1 "Machine")
  /\ In (resultOf "Machine" seg1) (searchResults transcript1 "Machine").
Proof.
  assert (H : In seg1 (TranscriptionTab.filteredSegments transcript1
                                                         "Machine")).
  { vm_compute. left. reflexivity. }
  split; [exact H|].
  exact (proj1 (X14_filtered_segment_is_a_hit transcript1 "Machine" seg1 H)).
Defined.

Lemma split_length (sep : ascii) (s : string) :
  List.length (Js.split sep s)
  = S (count_occ ascii_dec (list_ascii_of_string s) sep).
Proof.
  induction s as [|c s IH]; [reflexivity|].
  cbn [Js.split list_ascii_of_string count_occ].
  destruct (Ascii.eqb_spec c sep) as [->|Hne].
  - destruct (ascii_dec sep sep); [|congruence].
    cbn [List.length]. now rewrite IH.
  - destruct (ascii_dec c sep); [congruence|].
    destruct (Js.split sep s) eqn:E; [now destruct (split_not_nil sep s)|].
    cbn [List.length] in *. exact IH.
Qed.

(** X15.  The number of words that the transcript tab shows is the number
    of spaces of the full text plus one, and the number of sentences is the
    number of full stops plus one: both are at least 1, even for an empty
    text. *)
Theorem X15_word_count (T : Transcription) :
  TranscriptionTab.wordCount T
  = S (count_occ ascii_dec (list_ascii_of_string (full_text T)) " "%char)
  /\ TranscriptionTab.sentenceCount T
     = S (count_occ ascii_dec (list_ascii_of_string (full_text T)) "."%char).
Proof. split; apply split_length. Qed.

(** ** The quiz *)

Lemma combine_seq_In {A : Type} (l : list A) (k i : nat) (x : A) :
  In (i, x) (combine (seq k (List.length l)) l)
  <-> k <= i /\ nth_error l (i - k) = Some x.
Proof.
  revert k. induction l as [|y l IH]; intros k; cbn [List.length seq combine].
  - split; [intros []|]. intros [_ H]. destruct (i - k); discriminate.
  - cbn [In]. rewrite IH. split.
    + intros [E|[Hk Hn]].
      * injection E as <- <-. rewrite Nat.sub_diag. now split.
      * split; [lia|]. replace (i - k) with (S (i - S k)) by lia.
        exact Hn.
    + intros [Hk Hn]. destruct (Nat.eq_dec i k) as [->|Hne].
      * rewrite Nat.sub_diag in Hn. injection Hn as <-. now left.
      * right. split; [lia|].
        replace (i - k) with (S (i - S k)) in Hn by lia. exact Hn.
Qed.

Lemma entries_In {A : Type} (l : list A) (i : nat) (x : A) :
  In (i, x) (JsMore.entries l) <-> nth_error l i = Some x.
Proof.
  unfold JsMore.entries. rewrite combine_seq_In, Nat.sub_0_r.
  split; [now intros [_ H]|intros H; split; [lia|assumption]].
Qed.

Lemma entries_length {A : Type} (l : list A) :
  List.length (JsMore.entries l) = List.length l.
Proof.
  unfold JsMore.entries. rewrite length_combine, length_seq. lia.
Qed.

Lemma fold_count {A : Type} (p : A -> bool) (l : list A) (a : nat) :
  fold_left (fun acc x => if p x then acc + 1 else acc) l a
  = a + List.length (List.filter p l).
Proof.
  revert a. induction l as [|x l IH]; intros a; cbn [fold_left List.filter].
  - cbn. lia.
  - rewrite IH. destruct (p x); cbn [List.length]; lia.
Qed.

Lemma filter_length_all {A : Type} (p : A -> bool) (l : list A) :
  List.length (List.filter p l) = List.length l
  <-> forall x, In x l -> p x = true.
Proof.
  induction l as [|y l IH]; cbn [List.filter List.length In].
  - split; [intros _ x []|reflexivity].
  - pose proof (filter_length_le p l) as Hle.
    destruct (p y) eqn:E; cbn [List.length].
    + split.
      * intros H x [<-|Hx]; [assumption|]. apply IH; [lia|assumption].
      * intros H. f_equal. apply IH. auto.
    + split; [lia|]. intros H. specialize (H y (or_introl eq_refl)).
      congruence.
Qed.

Lemma fold_left_pointwise {A B : Type} (f g : A -> B -> A) (l : list B)
    (a : A) :
  (forall a x, f a x = g a x) -> fold_left f l a = fold_left g l a.
Proof.
  intros H. revert a. induction l as [|x l IH]; intros a; [reflexivity|].
  cbn [fold_left]. now rewrite H, IH.
Qed.

Lemma score_completeTest (qs : list QuestionsTab.MultipleChoiceQuestion)
    (st : QuestionsTab.State) :
  QuestionsTab.score (QuestionsTab.completeTest qs st)
  = List.length
      (List.filter
         (fun p : nat * QuestionsTab.MultipleChoiceQuestion =>
            QuestionsTab.answeredCorrectly
              (QuestionsTab.selectedAnswers st) (fst p) (snd p))
         (JsMore.entries qs)).
Proof.
  cbn [QuestionsTab.completeTest QuestionsTab.score].
  rewrite <- (Nat.add_0_l (List.length _)), <- fold_count.
  apply fold_left_pointwise. now intros a [index question].
Qed.

Lemma fold_explanations {A : Type} (l : list (nat * A)) (m : gmap nat bool)
    (i : nat) :
  (In i (map fst l) ->
   fold_left (fun acc '(index, _) => <[index := true]> acc) l m !! i
   = Some true)
  /\ (~ In i (map fst l) ->
      fold_left (fun acc '(index, _) => <[index := true]> acc) l m !! i
      = m !! i).
Proof.
  revert m. induction l as [|[j x] l IH]; intros m; cbn [fold_left map fst].
  - split; [intros []|reflexivity].
  - destruct (IH (<[j := true]> m)) as [IHin IHnot]. cbn [In]. split.
    + intros Hin. destruct (in_dec Nat.eq_dec i (map fst l)) as [Hl|Hl];
        [now apply IHin|].
      rewrite (IHnot Hl). destruct Hin as [->|Hin]; [|contradiction].
      apply lookup_insert_eq.
    + intros Hnot. rewrite IHnot by tauto.
      apply lookup_insert_ne. tauto.
Qed.

Lemma entries_fst {A : Type} (l : list A) :
  map fst (JsMore.entries l) = seq 0 (List.length l).
Proof.
  unfold JsMore.entries. generalize 0.
  induction l as [|x l IH]; intros k; cbn; [reflexivity|]. now rewrite IH.
Qed.

(** X16.  The score that [completeTest] stores never exceeds the number of
    questions; it equals that number exactly when every question has a
    selected answer equal to its correct answer; the test is marked
    completed, and the explanation of every question, and of nothing
    else, is revealed. *)
Theorem X16_test_score (qs : list QuestionsTab.MultipleChoiceQuestion)
    (st : QuestionsTab.State) :
  QuestionsTab.score (QuestionsTab.completeTest qs st) <= List.length qs
  /\ (QuestionsTab.score (QuestionsTab.completeTest qs st) = List.length qs
      <-> forall i q,
            nth_error qs i = Some q ->
            exists a, QuestionsTab.selectedAnswers st !! i = Some a
                      /\ Z.of_nat a = QuestionsTab.correct_answer q)
  /\ QuestionsTab.testCompleted (QuestionsTab.completeTest qs st) = true
  /\ forall i,
       QuestionsTab.showExplanation (QuestionsTab.completeTest qs st) !! i
       = if i <? List.length qs then Some true else None.
Proof.
  rewrite score_completeTest.
  split; [|split; [|split]].
  - rewrite <- (entries_length qs). apply filter_length_le.
  - rewrite <- (entries_length qs), filter_length_all. split.
    + intros H i q Hq. apply entries_In in Hq. specialize (H _ Hq).
      cbn [fst snd] in H. unfold QuestionsTab.answeredCorrectly in H.
      destruct (QuestionsTab.selectedAnswers st !! i) as [a|];
        [|discriminate].
      exists a. split; [reflexivity|]. now apply Z.eqb_eq.
    + intros H [i q] Hq. apply entries_In in Hq.
      destruct (H i q Hq) as (a & Ha & Hc). cbn [fst snd].
      unfold QuestionsTab.answeredCorrectly. rewrite Ha.
      now apply Z.eqb_eq.
  - reflexivity.
  - intros i. cbn [QuestionsTab.completeTest QuestionsTab.showExplanation].
    destruct (fold_explanations (JsMore.entries qs) ∅ i) as [Hin Hnot].
    rewrite entries_fst in Hin, Hnot.
    destruct (Nat.ltb_spec i (List.length qs)).
    + apply Hin, in_seq. lia.
    + rewrite Hnot; [apply lookup_empty|]. rewrite in_seq. lia.
Qed.

(** X17.  What a click on an option does.  Unless a test has been
    completed, it records the answer of that question and leaves the
    answers of all other questions, the mode, the completion flag and the
    score alone, a later click on the same question replacing an earlier
    one; in practice mode it also reveals the explanation of that
    question and of no other, and during a test it reveals nothing.  Once
    the test is completed it changes nothing at all.  Answers given before
    [startTest] are wiped by it, so they earn no point. *)
Theorem X17_answer_selection
    (qs : list QuestionsTab.MultipleChoiceQuestion)
    (st : QuestionsTab.State) (i a b : nat) :
  (QuestionsTab.testMode st && QuestionsTab.testCompleted st = false ->
   let st' := QuestionsTab.handleAnswerSelect i a st in
   QuestionsTab.selectedAnswers st' !! i = Some a
   /\ (forall j, j <> i ->
         QuestionsTab.selectedAnswers st' !! j
         = QuestionsTab.selectedAnswers st !! j)
   /\ QuestionsTab.selectedAnswers
        (QuestionsTab.handleAnswerSelect i b st') !! i = Some b
   /\ (forall j, j <> i ->
         QuestionsTab.selectedAnswers
           (QuestionsTab.handleAnswerSelect i b st') !! j
         = QuestionsTab.selectedAnswers st !! j)
   /\ (QuestionsTab.testMode st = false ->
       QuestionsTab.showExplanation st' !! i = Some true
       /\ forall j, j <> i ->
            QuestionsTab.showExplanation st' !! j
            = QuestionsTab.showExplanation st !! j)
   /\ (QuestionsTab.testMode st = true ->
       QuestionsTab.showExplanation st' = QuestionsTab.showExplanation st)
   /\ QuestionsTab.testMode st' = QuestionsTab.testMode st
   /\ QuestionsTab.testCompleted st' = QuestionsTab.testCompleted st
   /\ QuestionsTab.score st' = QuestionsTab.score st)
  /\ (QuestionsTab.testMode st && QuestionsTab.testCompleted st = true ->
      QuestionsTab.handleAnswerSelect i a st = st)
  /\ (QuestionsTab.testMode st = true ->
      QuestionsTab.handleAnswerSelect i a (QuestionsTab.completeTest qs st)
      = QuestionsTab.completeTest qs st)
  /\ QuestionsTab.score
       (QuestionsTab.completeTest qs (QuestionsTab.startTest st)) = 0.
Proof.
  split; [|split; [|split]].
  - intros Hopen st'.
    assert (Hst' : st' =
      QuestionsTab.Build_State (QuestionsTab.testMode st)
        (QuestionsTab.testCompleted st)
        (<[i:=a]> (QuestionsTab.selectedAnswers st))
        (if negb (QuestionsTab.testMode st)
         then <[i:=true]> (QuestionsTab.showExplanation st)
         else QuestionsTab.showExplanation st)
        (QuestionsTab.currentQuestionIndex st) (QuestionsTab.score st)).
    { subst st'. unfold QuestionsTab.handleAnswerSelect. now rewrite Hopen. }
    assert (Hsnd : QuestionsTab.selectedAnswers
                     (QuestionsTab.handleAnswerSelect i b st')
                   = <[i:=b]> (<[i:=a]> (QuestionsTab.selectedAnswers st))).
    { unfold QuestionsTab.handleAnswerSelect. rewrite Hst'.
      cbn [QuestionsTab.testMode QuestionsTab.testCompleted
           QuestionsTab.selectedAnswers].
      now rewrite Hopen. }
    rewrite Hsnd. rewrite Hst'.
    cbn [QuestionsTab.testMode QuestionsTab.testCompleted
         QuestionsTab.selectedAnswers QuestionsTab.showExplanation
         QuestionsTab.score].
    split; [apply lookup_insert_eq|].
    split; [intros j Hj; now apply lookup_insert_ne|].
    split; [apply lookup_insert_eq|].
    split; [intros j Hj; now rewrite !lookup_insert_ne by congruence|].
    split.
    { intros ->. cbn [negb]. split; [apply lookup_insert_eq|].
      intros j Hj. now apply lookup_insert_ne. }
    split; [now intros ->|]. now repeat split.
  - intros Hdone. unfold QuestionsTab.handleAnswerSelect. now rewrite Hdone.
  - intros Hmode. unfold QuestionsTab.handleAnswerSelect.
    cbn [QuestionsTab.completeTest QuestionsTab.testMode
         QuestionsTab.testCompleted].
    now rewrite Hmode.
  - rewrite score_completeTest. cbn [QuestionsTab.startTest
                                     QuestionsTab.selectedAnswers].
    replace (List.filter _ _) with (@nil (nat * QuestionsTab.MultipleChoiceQuestion));
      [reflexivity|].
    symmetry. induction (JsMore.entries qs) as [|[j q] l IH];
      [reflexivity|].
    cbn [List.filter fst snd]. unfold QuestionsTab.answeredCorrectly at 1.
    now rewrite lookup_empty.
Qed.

(** ** Selecting and filtering the nodes of the concept map *)

Lemma fold_connected (nodeId : string) (l : list ConceptEdge)
    (S : gset string) (m : string) :
  m ∈ fold_left
        (fun connectedNodes edge =>
           let connectedNodes :=
             if String.eqb (edge_from edge) nodeId
             then connectedNodes ∪ {[edge_to edge]} else connectedNodes in
           if String.eqb (edge_to edge) nodeId
           then connectedNodes ∪ {[edge_from edge]} else connectedNodes)
        l S
  <-> m ∈ S
      \/ exists e, In e l
                   /\ ((edge_from e = nodeId /\ edge_to e = m)
                       \/ (edge_to e = nodeId /\ edge_from e = m)).
Proof.
  revert S. induction l as [|e l IH]; intros S; cbn [fold_left].
  - split; [now left|]. intros [H|(e & [] & _)]. exact H.
  - rewrite IH. cbn zeta. split.
    + intros [H|(e' & He' & H)]; [|right; exists e'; cbn; tauto].
      destruct (String.eqb_spec (edge_to e) nodeId) as [Et|Et];
        destruct (String.eqb_spec (edge_from e) nodeId) as [Ef|Ef];
        rewrite ?elem_of_union, ?elem_of_singleton in H;
        try (destruct H as [[H|H]|H]); try (destruct H as [H|H]);
        try (now left); right; exists e; cbn; subst; tauto.
    + intros [H|(e' & [<-|He'] & H)].
      * left.
        destruct (String.eqb (edge_to e) nodeId);
          destruct (String.eqb (edge_from e) nodeId);
          rewrite ?elem_of_union; tauto.
      * left.
        destruct (String.eqb_spec (edge_to e) nodeId) as [Et|Et];
          destruct (String.eqb_spec (edge_from e) nodeId) as [Ef|Ef];
          rewrite ?elem_of_union, ?elem_of_singleton;
          destruct H as [[H1 H2]|[H1 H2]]; subst; tauto.
      * right. now exists e'.
Qed.

(** X19.  A click on a node that is not selected selects it and highlights
    it together with exactly the nodes that an edge joins to it, in either
    direction; whatever was highlighted before is dropped.  A click on the
    selected node clears the selection and every highlight, so two clicks
    on the same node leave nothing selected. *)
Theorem X19_node_click (cm : ConceptMap) (n : string)
    (st : ConceptMapHandlers.State) :
  (ConceptMapHandlers.selectedNode st <> Some n ->
   let st' := ConceptMapHandlers.handleNodeClick cm n st in
   ConceptMapHandlers.selectedNode st' = Some n
   /\ (forall m,
         m ∈ ConceptMapHandlers.highlightedNodes st'
         <-> m = n
             \/ exists e, In e (edges cm)
                          /\ ((edge_from e = n /\ edge_to e = m)
                              \/ (edge_to e = n /\ edge_from e = m)))
   /\ ConceptMapHandlers.selectedNode
        (ConceptMapHandlers.handleNodeClick cm n st') = None
   /\ ConceptMapHandlers.highlightedNodes
        (ConceptMapHandlers.handleNodeClick cm n st') = ∅)
  /\ (ConceptMapHandlers.selectedNode st = Some n ->
      ConceptMapHandlers.selectedNode
        (ConceptMapHandlers.handleNodeClick cm n st) = None
      /\ ConceptMapHandlers.highlightedNodes
           (ConceptMapHandlers.handleNodeClick cm n st) = ∅).
Proof.
  split.
  - intros Hsel st'. subst st'. unfold ConceptMapHandlers.handleNodeClick.
    rewrite (bool_decide_eq_false_2 _ Hsel). cbn.
    rewrite bool_decide_eq_true_2 by reflexivity. cbn.
    split; [reflexivity|]. split; [|now split].
    intros m. unfold ConceptMapHandlers.connectedNodes.
    rewrite fold_connected, elem_of_singleton. reflexivity.
  - intros Hsel. unfold ConceptMapHandlers.handleNodeClick.
    rewrite (bool_decide_eq_true_2 _ Hsel). now split.
Qed.

Lemma X19_node_click_witness :
  ConceptMapHandlers.selectedNode ConceptMapHandlers.initialState
    <> Some "ai"
  /\ "ml" ∈ ConceptMapHandlers.highlightedNodes
              (ConceptMapHandlers.handleNodeClick
                 mapDangling "ai" ConceptMapHandlers.initialState).
Proof.
  assert (H : ConceptMapHandlers.selectedNode ConceptMapHandlers.initialState
              <> Some "ai") by discriminate.
  split; [exact H|].
  destruct (proj1 (X19_node_click mapDangling "ai"
                                  ConceptMapHandlers.initialState) H)
    as (_ & Hhl & _).
  apply Hhl. right.
  exists {| edge_from := "ai"; edge_to := "ml"; edge_label := "includes";
            edge_strength := 1%Q |}.
  split; [now left|]. left. now split.
Defined.

Lemma setToArray_fold (l acc : list string) :
  (NoDup acc ->
   NoDup (fold_left (fun seen x => if Js.arrayIncludes seen x then seen
                                   else seen ++ [x]) l acc))
  /\ forall x,
       In x (fold_left (fun seen x => if Js.arrayIncludes seen x then seen
                                      else seen ++ [x]) l acc)
       <-> In x acc \/ In x l.
Proof.
  revert acc. induction l as [|y l IH]; intros acc; cbn [fold_left].
  - split; [auto|]. intros x. cbn. tauto.
  - destruct (Js.arrayIncludes acc y) eqn:E.
    + destruct (IH acc) as [Hnd Hin]. split; [assumption|].
      intros x. rewrite Hin. cbn [In]. apply arrayIncludes_In in E.
      split; [tauto|]. intros [H|[<-|H]]; tauto.
    + destruct (IH (acc ++ [y])) as [Hnd Hin]. split.
      * intros Hacc. apply Hnd.
        apply (Permutation_NoDup (Permutation_cons_append acc y)).
        constructor; [|assumption].
        intros Hy. apply arrayIncludes_In in Hy. congruence.
      * intros x. rewrite Hin, in_app_iff. cbn [In]. tauto.
Qed.

(** X20.  The options of the type filter are the types of the nodes, each
    listed once.  The option "all" shows every node, any other option shows
    exactly the nodes of that type, and every node is shown under the
    option of its own type. *)
Theorem X20_type_filter (cm : ConceptMap) :
  NoDup (ConceptMapHandlers.nodeTypes cm)
  /\ (forall t, In t (ConceptMapHandlers.nodeTypes cm)
                <-> exists n, In n (nodes cm) /\ node_type n = t)
  /\ ConceptMapHandlers.filteredNodes cm "all" = nodes cm
  /\ (forall t n, t <> "all" ->
        (In n (ConceptMapHandlers.filteredNodes cm t)
         <-> In n (nodes cm) /\ node_type n = t))
  /\ (forall n, In n (nodes cm) ->
        In n (ConceptMapHandlers.filteredNodes cm (node_type n))).
Proof.
  unfold ConceptMapHandlers.nodeTypes, JsMore.setToArray.
  destruct (setToArray_fold (map node_type (nodes cm)) []) as [Hnd Hin].
  split; [apply Hnd; constructor|].
  split.
  { intros t. rewrite Hin, in_map_iff. cbn [In].
    split; [intros [[]|(n & E & Hn)]|intros (n & Hn & E)]; eauto. }
  split; [now apply filter_all|].
  split.
  - intros t n Ht. unfold ConceptMapHandlers.filteredNodes.
    rewrite filter_In. apply String.eqb_neq in Ht. rewrite Ht. cbn [orb].
    now rewrite String.eqb_eq.
  - intros n Hn. unfold ConceptMapHandlers.filteredNodes.
    apply filter_In. split; [assumption|].
    rewrite String.eqb_refl. apply orb_true_r.
Qed.

(** ** The circular layout *)

Lemma fold_insert_other (radius : Z) (count : nat)
    (l : list (nat * ConceptNode)) (m : gmap string Position) (k : string) :
  ~ In k (map (fun p => node_id (snd p)) l) ->
  fold_left
    (fun nodePositions '(index, node) =>
       <[node_id node := OnCircle radius index count]> nodePositions)
    l m !! k
  = m !! k.
Proof.
  revert m. induction l as [|[index node] l IH]; intros m Hk;
    cbn [fold_left]; [reflexivity|].
  cbn in Hk. rewrite IH by tauto. apply lookup_insert_ne. tauto.
Qed.

Lemma fold_insert_keeps (radius : Z) (count : nat)
    (l : list (nat * ConceptNode)) (m : gmap string Position) (k : string) :
  is_Some (m !! k) \/ In k (map (fun p => node_id (snd p)) l) ->
  is_Some (fold_left
             (fun nodePositions '(index, node) =>
                <[node_id node := OnCircle radius index count]> nodePositions)
             l m !! k).
Proof.
  revert m. induction l as [|[index node] l IH]; intros m H;
    cbn [fold_left].
  - destruct H as [H|[]]. exact H.
  - apply IH. cbn in H.
    destruct (decide (node_id node = k)) as [<-|Hne].
    + left. rewrite lookup_insert_eq. now eexists.
    + destruct H as [H|[H|H]]; [|contradiction|now right].
      left. now rewrite lookup_insert_ne.
Qed.

Lemma fold_insert_lookup (radius : Z) (count : nat)
    (l : list (nat * ConceptNode)) (m : gmap string Position)
    (index : nat) (node : ConceptNode) :
  NoDup (map (fun p => node_id (snd p)) l) ->
  In (index, node) l ->
  fold_left
    (fun nodePositions '(index, node) =>
       <[node_id node := OnCircle radius index count]> nodePositions)
    l m !! node_id node
  = Some (OnCircle radius index count).
Proof.
  revert m. induction l as [|[i0 n0] l IH]; intros m Hnd Hin; [destruct Hin|].
  cbn [fold_left]. cbn in Hnd. inversion Hnd as [|? ? Hfresh Hnd']; subst.
  destruct Hin as [E|Hin].
  - injection E as -> ->. rewrite fold_insert_other by assumption.
    apply lookup_insert_eq.
  - now apply IH.
Qed.

Lemma combine_seq_keys (g : list ConceptNode) (k : nat) :
  map (fun p => node_id (snd p)) (combine (seq k (List.length g)) g)
  = map node_id g.
Proof.
  revert k. induction g as [|n g IH]; intros k; cbn; [reflexivity|].
  now rewrite IH.
Qed.

Lemma placeOnCircle_other (radius : Z) (g : list ConceptNode)
    (m : gmap string Position) (k : string) :
  ~ In k (map node_id g) -> placeOnCircle radius g m !! k = m !! k.
Proof.
  intros H. unfold placeOnCircle. apply fold_insert_other.
  now rewrite combine_seq_keys.
Qed.

Lemma placeOnCircle_keeps (radius : Z) (g : list ConceptNode)
    (m : gmap string Position) (k : string) :
  is_Some (m !! k) \/ In k (map node_id g) ->
  is_Some (placeOnCircle radius g m !! k).
Proof.
  intros H. unfold placeOnCircle. apply fold_insert_keeps.
  now rewrite combine_seq_keys.
Qed.

Lemma placeOnCircle_lookup (radius : Z) (g : list ConceptNode)
    (m : gmap string Position) (i : nat) (n : ConceptNode) :
  NoDup (map node_id g) ->
  nth_error g i = Some n ->
  placeOnCircle radius g m !! node_id n
  = Some (OnCircle radius i (List.length g)).
Proof.
  intros Hnd Hn. unfold placeOnCircle. apply fold_insert_lookup.
  - now rewrite combine_seq_keys.
  - apply combine_seq_In. rewrite Nat.sub_0_r. split; [lia|assumption].
Qed.

Lemma not_root_main (t : string) :
  negb (Js.arrayIncludes ["root"; "main"] t) = true
  <-> t <> "root" /\ t <> "main".
Proof.
  rewrite negb_true_iff. split.
  - intros H. split; intros ->; discriminate.
  - intros [H1 H2]. destruct (Js.arrayIncludes ["root"; "main"] t) eqn:E;
      [|reflexivity].
    apply arrayIncludes_In in E as [E|[E|[]]]; congruence.
Qed.

Lemma layout_places_other (cm : ConceptMap) (n : ConceptNode) :
  In n (nodes cm) -> node_type n <> "root" ->
  is_Some (calculateLayout cm !! node_id n).
Proof.
  intros Hn Hroot. unfold calculateLayout.
  destruct (String.eqb_spec (node_type n) "main") as [Hmain|Hmain].
  - apply placeOnCircle_keeps. left. apply placeOnCircle_keeps. right.
    apply in_map, filter_In. split; [assumption|].
    now apply String.eqb_eq.
  - apply placeOnCircle_keeps. right.
    apply in_map, filter_In. split; [assumption|].
    now apply not_root_main.
Qed.

Lemma layout_places_first_root (cm : ConceptMap) (r : ConceptNode) :
  Js.find (fun node => String.eqb (node_type node) "root") (nodes cm)
  = Some r ->
  is_Some (calculateLayout cm !! node_id r).
Proof.
  intros Hr. unfold calculateLayout. rewrite Hr.
  apply placeOnCircle_keeps. left. apply placeOnCircle_keeps. left.
  rewrite lookup_insert_eq. now eexists.
Qed.

(** X21.  The layout places every node that is not of type root, and the
    first node of type root; an id that is the id of no node gets no
    position. *)
Theorem X21_layout_places_nodes (cm : ConceptMap) :
  (forall n, In n (nodes cm) -> node_type n <> "root" ->
             is_Some (calculateLayout cm !! node_id n))
  /\ (forall r,
        Js.find (fun node => String.eqb (node_type node) "root") (nodes cm)
        = Some r ->
        is_Some (calculateLayout cm !! node_id r))
  /\ (forall k, ~ In k (map node_id (nodes cm)) ->
                calculateLayout cm !! k = None).
Proof.
  split; [apply layout_places_other|].
  split; [apply layout_places_first_root|].
  intros k Hk.
  destruct (calculateLayout cm !! k) as [p|] eqn:E; [|reflexivity].
  exfalso. apply Hk, calculateLayout_dom. rewrite E. now eexists.
Qed.

Lemma find_unique {A : Type} (p : A -> bool) (l : list A) (x : A) :
  List.length (List.filter p l) <= 1 ->
  In x l -> p x = true -> List.find p l = Some x.
Proof.
  induction l as [|y l IH]; intros Hlen Hin Hp; [destruct Hin|].
  cbn [List.filter List.find] in *.
  destruct (p y) eqn:E.
  - destruct Hin as [->|Hin]; [reflexivity|].
    assert (Hx : In x (List.filter p l)) by (apply filter_In; now split).
    destruct (List.filter p l); [destruct Hx|cbn in Hlen; lia].
  - destruct Hin as [->|Hin]; [congruence|]. now apply IH.
Qed.

(** X22.  In a map with at most one node of type root, every node has a
    position.  So the node renderer, which maps over the nodes that pass
    the type filter, draws each of them and returns nothing empty: one
    drawn element per filtered node, which under the filter "all" is one
    per node of the map.  A node that does not pass the filter is not in
    the list.  The edge renderer draws every edge of the map whose two
    ends are ids of nodes. *)
Theorem X22_single_root_draws_everything (cm : ConceptMap) :
  List.length
    (List.filter (fun node => String.eqb (node_type node) "root") (nodes cm))
  <= 1 ->
  (forall st : ConceptMapHandlers.State,
     Forall (fun r => r <> None) (ConceptMapHandlers.renderNodes cm st)
     /\ List.length (ConceptMapHandlers.renderNodes cm st)
        = List.length
            (ConceptMapHandlers.filteredNodes
               cm (ConceptMapHandlers.filterType st))
     /\ (ConceptMapHandlers.filterType st = "all" ->
         List.length (ConceptMapHandlers.renderNodes cm st)
         = List.length (nodes cm)))
  /\ (forall (st : ConceptMapHandlers.State) n,
        In n (nodes cm) ->
        ConceptMapHandlers.filterType st = "all"
        \/ node_type n = ConceptMapHandlers.filterType st ->
        exists el,
          ConceptMapHandlers.renderNode (calculateLayout cm) st n = Some el
          /\ In (Some el) (ConceptMapHandlers.renderNodes cm st))
  /\ (forall (st : ConceptMapHandlers.State) n,
        ConceptMapHandlers.filterType st <> "all" ->
        node_type n <> ConceptMapHandlers.filterType st ->
        ~ In n (ConceptMapHandlers.filteredNodes
                  cm (ConceptMapHandlers.filterType st)))
  /\ (forall hl sl e,
        In e (edges cm) ->
        In (edge_from e) (map node_id (nodes cm)) ->
        In (edge_to e) (map node_id (nodes cm)) ->
        exists el,
          renderEdge cm (calculateLayout cm) hl sl e = Some el
          /\ In (Some el) (renderEdges cm hl sl)).
Proof.
  intros Hroot.
  pose proof (layout_places_other cm) as Hother.
  pose proof (layout_places_first_root cm) as Hfirst.
  assert (Hpos : forall n, In n (nodes cm) ->
                           is_Some (calculateLayout cm !! node_id n)).
  { intros n Hn.
    destruct (String.eqb_spec (node_type n) "root") as [E|E].
    - apply Hfirst. unfold Js.find. apply find_unique; try assumption.
      now apply String.eqb_eq.
    - now apply Hother. }
  assert (Hdraw : forall st n, In n (nodes cm) ->
            exists el,
              ConceptMapHandlers.renderNode (calculateLayout cm) st n
              = Some el).
  { intros st n Hn. unfold ConceptMapHandlers.renderNode.
    destruct (Hpos n Hn) as [p ->]. eexists; reflexivity. }
  split; [|split; [|split]].
  - intros st. split; [|split].
    + unfold ConceptMapHandlers.renderNodes. apply Forall_forall.
      intros r Hr. apply in_map_iff in Hr as (n & <- & Hn).
      apply filter_In in Hn as [Hn _].
      destruct (Hdraw st n Hn) as [el ->]. discriminate.
    + unfold ConceptMapHandlers.renderNodes. apply length_map.
    + intros Hall. unfold ConceptMapHandlers.renderNodes.
      rewrite length_map. unfold ConceptMapHandlers.filteredNodes.
      rewrite Hall. f_equal. clear.
      induction (nodes cm) as [|n l IH]; [reflexivity|].
      cbn [List.filter]. rewrite String.eqb_refl. cbn [orb]. now f_equal.
  - intros st n Hn Hpass. destruct (Hdraw st n Hn) as [el Hel].
    exists el. split; [exact Hel|].
    unfold ConceptMapHandlers.renderNodes. rewrite <- Hel.
    apply in_map. unfold ConceptMapHandlers.filteredNodes.
    apply filter_In. split; [exact Hn|].
    destruct Hpass as [->| ->].
    + now rewrite String.eqb_refl.
    + rewrite (String.eqb_refl (ConceptMapHandlers.filterType st)).
      apply orb_true_r.
  - intros st n Hall Hty Hin.
    unfold ConceptMapHandlers.filteredNodes in Hin.
    apply filter_In in Hin as [_ Hp].
    apply orb_true_iff in Hp as [Hp|Hp]; apply String.eqb_eq in Hp;
      congruence.
  - intros hl sl e He Hf Ht.
    assert (Hd : renderEdge cm (calculateLayout cm) hl sl e <> None).
    { apply renderEdge_drawn.
      apply in_map_iff in Hf as (nf & <- & Hnf).
      apply in_map_iff in Ht as (nt & <- & Hnt).
      split; now apply Hpos. }
    destruct (renderEdge cm (calculateLayout cm) hl sl e) as [el|] eqn:E;
      [|congruence].
    exists el. split; [reflexivity|].
    unfold renderEdges. rewrite <- E. now apply in_map.
Qed.

Lemma X22_single_root_draws_everything_witness :
  List.length
    (List.filter (fun node => String.eqb (node_type node) "root")
                 (nodes mapDangling)) <= 1
  /\ Forall (fun r => r <> None)
       (ConceptMapHandlers.renderNodes
          mapDangling ConceptMapHandlers.initialState)
  /\ List.length
       (ConceptMapHandlers.renderNodes
          mapDangling ConceptMapHandlers.initialState)
     = List.length (nodes mapDangling).
Proof.
  assert (H : List.length
                (List.filter (fun node => String.eqb (node_type node) "root")
                             (nodes mapDangling)) <= 1).
  { vm_compute. lia. }
  split; [exact H|].
  destruct (proj1 (X22_single_root_draws_everything mapDangling H)
              ConceptMapHandlers.initialState) as (Hall & _ & Hlen).
  split; [exact Hall|]. now apply Hlen.
Defined.

Lemma NoDup_map_filter {A B : Type} (f : A -> B) (p : A -> bool)
    (l : list A) :
  NoDup (map f l) -> NoDup (map f (List.filter p l)).
Proof.
  induction l as [|x l IH]; cbn [map List.filter]; intros H; [constructor|].
  inversion H as [|? ? Hx Hl]; subst.
  destruct (p x); [|auto]. cbn [map]. constructor; [|auto].
  intros Hin. apply Hx. apply in_map_iff in Hin as (y & E & Hy).
  apply filter_In in Hy as [Hy _]. rewrite <- E. now apply in_map.
Qed.

Lemma NoDup_map_eq {A B : Type} (f : A -> B) (l : list A) (a b : A) :
  NoDup (map f l) -> In a l -> In b l -> f a = f b -> a = b.
Proof.
  induction l as [|x l IH]; cbn [map]; intros H Ha Hb E; [destruct Ha|].
  inversion H as [|? ? Hx Hl]; subst.
  destruct Ha as [->|Ha], Hb as [->|Hb]; auto.
  - exfalso. apply Hx. rewrite E. now apply in_map.
  - exfalso. apply Hx. rewrite <- E. now apply in_map.
Qed.

(** X23.  When the ids of the nodes are distinct, the layout holds for each
    node the position of its own group: the first root at the centre, the
    main nodes on the circle of radius 200 and all other nodes on the
    circle of radius 300, each at the slot of its rank in its group; a
    further node of type root has no position. *)
Theorem X23_layout_positions (cm : ConceptMap) :
  NoDup (map node_id (nodes cm)) ->
  let isRoot := fun node => String.eqb (node_type node) "root" in
  let mainNodes :=
    List.filter (fun node => String.eqb (node_type node) "main")
                (nodes cm) in
  let otherNodes :=
    List.filter
      (fun node => negb (Js.arrayIncludes ["root"; "main"] (node_type node)))
      (nodes cm) in
  (forall r, Js.find isRoot (nodes cm) = Some r ->
             calculateLayout cm !! node_id r = Some Centre)
  /\ (forall i n, nth_error mainNodes i = Some n ->
        calculateLayout cm !! node_id n
        = Some (OnCircle 200 i (List.length mainNodes)))
  /\ (forall i n, nth_error otherNodes i = Some n ->
        calculateLayout cm !! node_id n
        = Some (OnCircle 300 i (List.length otherNodes)))
  /\ (forall n, In n (nodes cm) -> node_type n = "root" ->
        Js.find isRoot (nodes cm) <> Some n ->
        calculateLayout cm !! node_id n = None).
Proof.
  intros Hnd isRoot mainNodes otherNodes.
  assert (Hmain : forall n, In n mainNodes
                            <-> In n (nodes cm) /\ node_type n = "main").
  { intros n. subst mainNodes. rewrite filter_In.
    now rewrite String.eqb_eq. }
  assert (Hoth : forall n, In n otherNodes
                           <-> In n (nodes cm) /\ node_type n <> "root"
                               /\ node_type n <> "main").
  { intros n. subst otherNodes. rewrite filter_In.
    now rewrite not_root_main. }
  assert (Hkey : forall (g : list ConceptNode) n,
             In n (nodes cm) ->
             (forall x, In x g -> In x (nodes cm)) ->
             In (node_id n) (map node_id g) -> In n g).
  { intros g n Hn Hg Hin. apply in_map_iff in Hin as (x & E & Hx).
    assert (x = n) as <-; [|assumption].
    apply (NoDup_map_eq node_id (nodes cm)); auto. }
  assert (Hmsub : forall x, In x mainNodes -> In x (nodes cm))
    by (intros x Hx; now apply Hmain in Hx).
  assert (Hosub : forall x, In x otherNodes -> In x (nodes cm))
    by (intros x Hx; now apply Hoth in Hx).
  split; [|split; [|split]].
  - intros r Hr. unfold calculateLayout. fold mainNodes otherNodes.
    unfold isRoot in Hr. rewrite Hr.
    unfold Js.find in Hr. apply find_some in Hr as [Hin Ht].
    apply String.eqb_eq in Ht.
    rewrite placeOnCircle_other.
    + rewrite placeOnCircle_other; [apply lookup_insert_eq|].
      intros Hk. apply (Hkey mainNodes r Hin Hmsub) in Hk.
      apply Hmain in Hk. destruct Hk as [_ Hk]. rewrite Ht in Hk.
      discriminate.
    + intros Hk. apply (Hkey otherNodes r Hin Hosub) in Hk.
      apply Hoth in Hk. tauto.
  - intros i n Hn. unfold calculateLayout. fold mainNodes otherNodes.
    pose proof (nth_error_In _ _ Hn) as Hin. apply Hmain in Hin as [Hin Ht].
    rewrite placeOnCircle_other.
    + apply placeOnCircle_lookup; [|assumption].
      now apply NoDup_map_filter.
    + intros Hk. apply (Hkey otherNodes n Hin Hosub) in Hk.
      apply Hoth in Hk. tauto.
  - intros i n Hn. unfold calculateLayout. fold mainNodes otherNodes.
    change (200 + 100)%Z with 300%Z.
    apply placeOnCircle_lookup; [|assumption].
    now apply NoDup_map_filter.
  - intros n Hin Ht Hfirst. unfold calculateLayout.
    fold mainNodes otherNodes.
    rewrite placeOnCircle_other.
    + rewrite placeOnCircle_other.
      * fold isRoot. destruct (Js.find isRoot (nodes cm)) as [r|] eqn:Er;
          [|apply lookup_empty].
        rewrite lookup_insert_ne; [apply lookup_empty|].
        intros E. apply Hfirst. f_equal.
        unfold Js.find in Er. apply find_some in Er as [Hr _].
        now apply (NoDup_map_eq node_id (nodes cm)).
      * intros Hk. apply (Hkey mainNodes n Hin Hmsub) in Hk.
        apply Hmain in Hk. destruct Hk as [_ Hk]. rewrite Ht in Hk.
        discriminate.
    + intros Hk. apply (Hkey otherNodes n Hin Hosub) in Hk.
      apply Hoth in Hk. tauto.
Qed.

Lemma X23_layout_positions_witness :
  NoDup (map node_id (nodes mapDangling))
  /\ calculateLayout mapDangling !! "ml" = Some (OnCircle 200 0 1).
Proof.
  assert (H : NoDup (map node_id (nodes mapDangling))).
  { cbn. repeat constructor; cbn; intuition discriminate. }
  split; [exact H|].
  exact (proj1 (proj2 (X23_layout_positions mapDangling H)) 0
               {| node_id := "ml"; node_label := "ML"; node_type := "main";
                  node_size := 30%Q |} eq_refl).
Defined.

(** ** The progress page *)

Lemma stepIndex_floor (p : Z) :
  Qfloor ((inject_Z p / 100) * inject_Z ProcessingPage.stepsLength)%Q
  = (p * 6 / 100)%Z.
Proof.
  unfold Qdiv, Qmult, Qinv, inject_Z, ProcessingPage.stepsLength. cbn.
  now rewrite !Z.mul_1_r.
Qed.

Lemma ticks_state (n : nat) :
  ProcessingPage.progress (Nat.iter n ProcessingPage.tick
                                    ProcessingPage.initialState)
  = Z.min (2 * Z.of_nat n) 100
  /\ ProcessingPage.currentStep (Nat.iter n ProcessingPage.tick
                                          ProcessingPage.initialState)
     = Z.min (ProcessingPage.progress
                (Nat.iter n ProcessingPage.tick ProcessingPage.initialState)
              * 6 / 100) 5.
Proof.
  induction n as [|n [IHp IHs]]; [now split|].
  rewrite !Nat.iter_succ.
  set (st := Nat.iter n ProcessingPage.tick ProcessingPage.initialState) in *.
  unfold ProcessingPage.tick.
  destruct (Z.leb_spec 100 (ProcessingPage.progress st)) as [H|H];
    cbv iota.
  - split; [lia|assumption].
  - cbn [ProcessingPage.progress ProcessingPage.currentStep].
    rewrite stepIndex_floor. split; [lia|reflexivity].
Qed.

(** X18.  After [n] expiries of the interval the progress is [2 n], capped
    at 100: it never exceeds 100, reaches 100 at the fiftieth expiry and
    stays there, and the state no longer changes from then on. *)
Theorem X18_progress_after_ticks (n : nat) :
  ProcessingPage.progress
    (Nat.iter n ProcessingPage.tick ProcessingPage.initialState)
  = Z.min (2 * Z.of_nat n) 100
  /\ (50 <= n ->
      ProcessingPage.tick
        (Nat.iter n ProcessingPage.tick ProcessingPage.initialState)
      = Nat.iter n ProcessingPage.tick ProcessingPage.initialState).
Proof.
  destruct (ticks_state n) as [Hp _]. split; [exact Hp|].
  intros Hn.
  set (st := Nat.iter n ProcessingPage.tick ProcessingPage.initialState) in *.
  unfold ProcessingPage.tick. rewrite Hp.
  destruct (Z.leb_spec 100 (Z.min (2 * Z.of_nat n) 100)); [reflexivity|lia].
Qed.

(** X24.  The step shown as current is [floor (6 * progress / 100)], capped
    at the last of the six steps.  So the last step is never shown as
    completed: at 100 per cent the first five steps are completed and the
    sixth is still the current one. *)
Theorem X24_last_step_never_completed (n : nat) :
  let st := Nat.iter n ProcessingPage.tick ProcessingPage.initialState in
  ProcessingPage.currentStep st
  = Z.min (ProcessingPage.progress st * 6 / 100) 5
  /\ ProcessingPage.stepStatus st 5 <> ProcessingPage.isCompleted
  /\ (50 <= n ->
      ProcessingPage.stepStatus st 5 = ProcessingPage.isCurrent
      /\ forall i, (0 <= i < 5)%Z ->
                   ProcessingPage.stepStatus st i
                   = ProcessingPage.isCompleted).
Proof.
  intros st. destruct (ticks_state n) as [Hp Hs]. fold st in Hp, Hs.
  split; [exact Hs|]. split.
  - unfold ProcessingPage.stepStatus.
    destruct (Z.ltb_spec 5 (ProcessingPage.currentStep st)); [lia|].
    destruct (5 =? ProcessingPage.currentStep st)%Z; discriminate.
  - intros Hn.
    assert (E : ProcessingPage.currentStep st = 5%Z).
    { rewrite Hs, Hp. replace (Z.min (2 * Z.of_nat n) 100) with 100%Z by lia.
      reflexivity. }
    unfold ProcessingPage.stepStatus. rewrite E. split; [reflexivity|].
    intros i Hi. destruct (Z.ltb_spec i 5); [reflexivity|lia].
Qed.

(** ** The upload page *)

Lemma substring_full (s : string) :
  String.substring 0 (String.length s) s = s.
Proof. induction s as [|c s IH]; cbn; [reflexivity|now rewrite IH]. Qed.

Lemma substring_zero (n : nat) (s : string) :
  String.substring n 0 s = EmptyString.
Proof.
  revert n. induction s as [|c s IH]; intros [|n]; cbn; try reflexivity.
  apply IH.
Qed.

Lemma substring_split (s : string) (k : nat) :
  k <= String.length s ->
  s = (String.substring 0 k s
       ++ String.substring k (String.length s - k) s)%string.
Proof.
  revert k. induction s as [|c s IH]; intros [|k] Hk; cbn in Hk.
  - reflexivity.
  - lia.
  - rewrite Nat.sub_0_r, substring_full. reflexivity.
  - cbn [String.length String.substring Nat.sub]. rewrite append_cons.
    f_equal. apply IH. lia.
Qed.

Lemma substring_suffix (pre suf : string) :
  String.substring (String.length pre) (String.length suf) (pre ++ suf)%string
  = suf.
Proof.
  induction pre as [|c pre IH].
  - rewrite append_nil_l. apply substring_full.
  - rewrite append_cons. cbn [String.length String.substring]. exact IH.
Qed.

Lemma endsWith_spec (s suffix : string) :
  JsMore.endsWith s suffix = true <-> exists stem, s = (stem ++ suffix)%string.
Proof.
  unfold JsMore.endsWith. rewrite andb_true_iff, Nat.leb_le, String.eqb_eq.
  split.
  - intros [Hlen E].
    exists (String.substring 0 (String.length s - String.length suffix) s).
    pose proof (substring_split
                  s (String.length s - String.length suffix)) as H.
    replace (String.length s - (String.length s - String.length suffix))
      with (String.length suffix) in H by lia.
    rewrite E in H. apply H. lia.
  - intros [stem ->]. rewrite append_length. split; [lia|].
    replace (String.length stem + String.length suffix - String.length suffix)
      with (String.length stem) by lia.
    apply substring_suffix.
Qed.

(** X25.  A file is accepted exactly when its MIME type is one of the five
    listed audio types, or its name, whatever the case of its letters, ends
    with .mp3, .wav or .m4a.  Only the first file of a drop or selection is
    looked at, and nothing is uploaded unless that file is accepted. *)
Theorem X25_accepted_audio_files (file : HomePage.File)
    (files : list HomePage.File) :
  (HomePage.isValidAudioFile file = true
   <-> In (HomePage.type file) HomePage.validTypes
       \/ exists stem ext,
            In ext HomePage.validExtensions
            /\ Js.toLowerCase (HomePage.name file) = (stem ++ ext)%string)
  /\ (HomePage.handleFiles files = HomePage.onFileUpload file ->
      exists rest, files = file :: rest
                   /\ HomePage.isValidAudioFile file = true)
  /\ HomePage.handleFiles [] = HomePage.nothing.
Proof.
  split; [|split; [|reflexivity]].
  - unfold HomePage.isValidAudioFile.
    rewrite orb_true_iff, arrayIncludes_In, existsb_exists.
    split; intros [H|H]; auto; right.
    + destruct H as (ext & Hext & E). apply endsWith_spec in E as [stem E].
      now exists stem, ext.
    + destruct H as (stem & ext & Hext & E). exists ext.
      split; [assumption|]. apply endsWith_spec. now exists stem.
  - destruct files as [|f rest]; cbn [HomePage.handleFiles];
      [discriminate|].
    destruct (HomePage.isValidAudioFile f) eqn:E; [|discriminate].
    intros H. injection H as <-. now exists rest.
Qed.
